(** * Sandbox teardown (teardown_script.py): a shallow embedding

    The script is a sequence of calls against the CloudShell API with
    logging and exception handling around them, plus one fan-out over a
    thread pool whose workers share a lock and a two-entry status dict.

    - Sequential code is written in a small trace-and-exception monad: a
      computation takes the history of events so far and gives back an
      outcome (a value or a raised exception) and the extended history.
    - The thread pool is a transition system: every worker has a program
      point, one transition is one source-level action, and a schedule
      picks which thread moves next.
    - The API is an oracle: whether a call raises is a function of the
      history and the call. *)

From Stdlib Require Import ZArith Ascii String.
From stdpp Require Import base list strings.

Local Open Scope string_scope.

(** ** Python values the script looks at *)

(** The [code] of a [CloudShellAPIError] is compared with the string
    ["123"] at one place and with the integer [153] at another; Python's
    [==] never equates a string with an integer. *)
Inductive pyval :=
| PyInt (z : Z)
| PyStr (s : string).

Definition pyval_eqb (a b : pyval) : bool :=
  match a, b with
  | PyInt x, PyInt y => Z.eqb x y
  | PyStr x, PyStr y => String.eqb x y
  | _, _ => false
  end.

(** Exceptions: the structured API error and any other [Exception]. *)
Inductive exn :=
| CloudShellAPIError (code : pyval) (message : string)
| Exception (message : string).

Definition exn_message (e : exn) : string :=
  match e with
  | CloudShellAPIError _ m => m
  | Exception m => m
  end.

(** [str.lower()] on ASCII text. *)
Definition lower_ascii (c : ascii) : ascii :=
  let n := nat_of_ascii c in
  if (65 <=? n)%nat && (n <=? 90)%nat then ascii_of_nat (n + 32) else c.

Fixpoint lower (s : string) : string :=
  match s with
  | EmptyString => EmptyString
  | String c r => String (lower_ascii c) (lower r)
  end.

(** ** Data model *)

Record connector := {
  State : string;
  Source : option string;
  Target : option string
}.

Record vm_custom_param := {
  ParamName : string;
  Value : string
}.

Record vm_details := {
  VmCustomParams : list vm_custom_param
}.

Record resource_info := {
  Name : string;
  VmDetails : option vm_details
}.

Record resource := {
  ResourceName : string
}.

Record reservation_details := {
  Connectors : list connector;
  Resources : list resource
}.

(** Truthiness of an optional string attribute: [None] and the empty
    string are false. *)
Definition truthy (o : option string) : bool :=
  match o with
  | Some s => negb (String.eqb s "")
  | None => false
  end.

(** Modelled from the spec: [get_vm_custom_param] lives in
    sandbox_scripts.helpers.resource_helpers, which is not part of the
    sources at hand.  The spec describes it as reading a named custom
    parameter off a resource, giving the parameter or nothing. *)
Fixpoint find_param (ps : list vm_custom_param) (name : string)
  : option vm_custom_param :=
  match ps with
  | [] => None
  | p :: r => if String.eqb (ParamName p) name then Some p else find_param r name
  end.

Definition get_vm_custom_param (ri : resource_info) (name : string)
  : option vm_custom_param :=
  match VmDetails ri with
  | Some d => find_param (VmCustomParams d) name
  | None => None
  end.

(** ** Events *)

Inductive level := Info | Error.

Inductive api_call :=
| GetReservationDetails (reservationId : string)
| WriteMessageToReservationOutput (reservationId message : string)
| DisconnectRoutesInReservation (reservationId : string) (endpoints : list string)
| GetResourceDetails (resourceName : string)
| ExecuteResourceConnectedCommand (reservationId resourceName commandName commandTag : string)
| RemoveResourcesFromReservation (reservationId : string) (resourceNames : list string)
| CleanupSandboxConnectivity (reservationId : string).

Inductive event :=
| EvLog (lvl : level) (msg : string)
| EvApi (c : api_call).

(** A history lists the events most recent first. *)
Definition history := list event.

(** ** The outside world *)

Record Env := {
  reservation_id : string;
  (** does this call raise, given what happened before it? *)
  raises : history -> api_call -> option exn;
  (** what the two reading calls answer when they do not raise *)
  reservation : reservation_details;
  resource_details : string -> resource_info;
  (** the helper filtering the resources created in the reservation *)
  get_resources_created_in_res : reservation_details -> string -> list resource;
  (** Python's [str] on an exception *)
  str_exn : exn -> string
}.

(** ** The trace-and-exception monad *)

Inductive outcome (A : Type) :=
| Return (a : A)
| Raise (e : exn).
Arguments Return {A} a.
Arguments Raise {A} e.

Definition M (A : Type) : Type := history -> outcome A * history.

Definition ret {A} (a : A) : M A := fun h => (Return a, h).

Definition bind {A B} (m : M A) (k : A -> M B) : M B :=
  fun h =>
    match m h with
    | (Return a, h') => k a h'
    | (Raise e, h') => (Raise e, h')
    end.

Notation "'let*' x ':=' m 'in' k" := (bind m (fun x => k))
  (at level 10, x name, m at level 100, k at level 200).
Notation "'let*' '_' ':=' m 'in' k" := (bind m (fun _ => k))
  (at level 10, m at level 100, k at level 200).

(** [try: body except Exception as e: handler e] *)
Definition try_except {A} (body : M A) (handler : exn -> M A) : M A :=
  fun h =>
    match body h with
    | (Return a, h') => (Return a, h')
    | (Raise e, h') => handler e h'
    end.

Definition logger (lvl : level) (msg : string) : M unit :=
  fun h => (Return tt, EvLog lvl msg :: h).

Section Teardown.

Variable env : Env.

Definition api (c : api_call) : M unit :=
  fun h =>
    match raises env h c with
    | Some e => (Raise e, EvApi c :: h)
    | None => (Return tt, EvApi c :: h)
    end.

Definition write_message (message : string) : M unit :=
  api (WriteMessageToReservationOutput (reservation_id env) message).

(** *** _disconnect_all_routes_in_reservation (lines 39-69) *)

Definition connected_state (s : string) : bool :=
  String.eqb s "Connected" || String.eqb s "PartiallyConnected".

Fixpoint collect_endpoints (connectors : list connector) (endpoints : list string)
  : list string :=
  match connectors with
  | [] => endpoints
  | endpoint :: rest =>
      if connected_state (State endpoint)
         && truthy (Target endpoint) && truthy (Source endpoint)
      then
        match Target endpoint, Source endpoint with
        | Some t, Some s => collect_endpoints rest (endpoints ++ [t; s])
        | _, _ => collect_endpoints rest endpoints
        end
      else collect_endpoints rest endpoints
  end.

Definition disconnect_error_log (e : exn) : string :=
  "Error disconnecting all routes in reservation " ++ reservation_id env
    ++ ". Error: " ++ str_exn env e.

Definition disconnect_error_message (e : exn) : string :=
  "Error disconnecting apps. Error: " ++ exn_message e.

Definition disconnect_handler (e : exn) : M unit :=
  match e with
  | CloudShellAPIError code _ =>
      if negb (pyval_eqb code (PyStr "123")) then
        let* _ := logger Error (disconnect_error_log e) in
        write_message (disconnect_error_message e)
      else ret tt
  | Exception _ =>
      let* _ := logger Error (disconnect_error_log e) in
      write_message (disconnect_error_message e)
  end.

Definition _disconnect_all_routes_in_reservation (rd : reservation_details) : M unit :=
  let endpoints := collect_endpoints (Connectors rd) [] in
  match endpoints with
  | [] =>
      logger Info ("No routes to disconnect for reservation " ++ reservation_id env)
  | _ =>
      try_except
        (let* _ := logger Info ("Executing disconnect routes for reservation "
                                  ++ reservation_id env) in
         let* _ := write_message "Disconnecting all apps..." in
         api (DisconnectRoutesInReservation (reservation_id env) endpoints))
        disconnect_handler
  end.

(** *** _power_off_or_delete_deployed_app (lines 117-177), one action at a time

    [message_status] is the dict of line 85; its two keys are the only
    ones ever used, so it is a record of two booleans. *)

Record message_status := {
  flag_power_off : bool;
  flag_delete : bool
}.

Definition set_delete (m : message_status) : message_status :=
  {| flag_power_off := flag_power_off m; flag_delete := true |}.

Definition set_power_off (m : message_status) : message_status :=
  {| flag_power_off := true; flag_delete := flag_delete m |}.

(** Program points of a worker.  A point names the action the worker
    performs next. *)
Inductive pc :=
| Begin                         (* 125-134, 153-160, 171: local decisions, info log *)
| DelCheck                      (* 136: first test of message_status['delete'] *)
| DelAcquire                    (* 137: with lock *)
| DelRecheck                    (* 138: second test of message_status['delete'] *)
| DelSet                        (* 139: message_status['delete'] = True *)
| DelReadPower                  (* 140: test of message_status['power_off'] *)
| DelSetPower                   (* 141: message_status['power_off'] = True *)
| DelWriteBoth                  (* 142: 'Apps are being powered off and deleted...' *)
| DelWriteDeleted               (* 145: 'Apps are being deleted...' *)
| DelRelease (r : option exn)   (* leaving the with block of 137 *)
| DelReturn                     (* 151: return resource_name *)
| PowCheck                      (* 162: first test of message_status['power_off'] *)
| PowAcquire                    (* 163: with lock *)
| PowRecheck                    (* 164: second test of message_status['power_off'] *)
| PowSet                        (* 165: message_status['power_off'] = True *)
| PowWrite                      (* 166: 'Apps are powering off...' *)
| PowRelease (r : option exn)   (* leaving the with block of 163 *)
| PowCommand                    (* 169: ExecuteResourceConnectedCommand *)
| ReturnNone                    (* 173: return None *)
| Except (e : exn)              (* 174-177: except Exception as exc *)
| Done (result : outcome (option string)).

Record worker := {
  info : resource_info;
  at_pc : pc
}.

(** The main thread while the pool is alive (lines 90-98). *)
Inductive main_pc :=
| Submitting (todo : list resource)
| Joined
| Failed (e : exn).

Record pool := {
  hist : history;
  status : message_status;
  lock : option nat;
  workers : list worker;
  main : main_pc
}.

Inductive thread :=
| MainThread
| Worker (i : nat).

Definition msg_both : string := "Apps are being powered off and deleted...".
Definition msg_deleted : string := "Apps are being deleted...".
Definition msg_powering_off : string := "Apps are powering off...".

Definition param_or_true (ri : resource_info) (name : string) : string :=
  match get_vm_custom_param ri name with
  | Some p => Value p
  | None => "true"
  end.

Definition worker_error_log (resource_name : string) (e : exn) : string :=
  "Error deleting or powering off deployed app " ++ resource_name
    ++ " in reservation " ++ reservation_id env ++ ". Error: " ++ str_exn env e.

Definition goto (i : nat) (w : worker) (p : pc) (s : pool) : pool :=
  {| hist := hist s; status := status s; lock := lock s;
     workers := <[i := {| info := info w; at_pc := p |}]> (workers s);
     main := main s |}.

Definition with_hist (h : history) (s : pool) : pool :=
  {| hist := h; status := status s; lock := lock s;
     workers := workers s; main := main s |}.

Definition with_status (m : message_status) (s : pool) : pool :=
  {| hist := hist s; status := m; lock := lock s;
     workers := workers s; main := main s |}.

Definition with_lock (l : option nat) (s : pool) : pool :=
  {| hist := hist s; status := status s; lock := l;
     workers := workers s; main := main s |}.

(** An API call made by worker [i]: on success go to [ok], otherwise to
    [ko e]. *)
Definition call (i : nat) (w : worker) (c : api_call) (ok : pc) (ko : exn -> pc)
    (s : pool) : pool :=
  match api c (hist s) with
  | (Return _, h) => goto i w ok (with_hist h s)
  | (Raise e, h) => goto i w (ko e) (with_hist h s)
  end.

Definition say (i : nat) (w : worker) (lvl : level) (msg : string) (p : pc)
    (s : pool) : pool :=
  goto i w p (with_hist (EvLog lvl msg :: hist s) s).

(** One action of worker [i], which is at [at_pc w]; [None] when the
    worker cannot move (it waits for the lock, or it has finished). *)
Definition worker_step (i : nat) (w : worker) (s : pool) : option pool :=
  let resource_name := Name (info w) in
  match at_pc w with
  | Begin =>
      if String.eqb (lower (param_or_true (info w) "auto_delete")) "true" then
        Some (say i w Info ("Executing 'Delete' on deployed app " ++ resource_name
                              ++ " in reservation " ++ reservation_id env) DelCheck s)
      else if String.eqb (lower (param_or_true (info w) "auto_power_off")) "true" then
        Some (say i w Info ("Executing 'Power Off' on deployed app " ++ resource_name
                              ++ " in reservation " ++ reservation_id env) PowCheck s)
      else
        Some (say i w Info ("Auto Power Off is disabled for deployed app " ++ resource_name
                              ++ " in reservation " ++ reservation_id env) ReturnNone s)
  | DelCheck =>
      Some (goto i w (if negb (flag_delete (status s)) then DelAcquire else DelReturn) s)
  | DelAcquire =>
      match lock s with
      | None => Some (goto i w DelRecheck (with_lock (Some i) s))
      | Some _ => None
      end
  | DelRecheck =>
      Some (goto i w (if negb (flag_delete (status s)) then DelSet else DelRelease None) s)
  | DelSet =>
      Some (goto i w DelReadPower (with_status (set_delete (status s)) s))
  | DelReadPower =>
      Some (goto i w (if negb (flag_power_off (status s)) then DelSetPower
                      else DelWriteDeleted) s)
  | DelSetPower =>
      Some (goto i w DelWriteBoth (with_status (set_power_off (status s)) s))
  | DelWriteBoth =>
      Some (call i w (WriteMessageToReservationOutput (reservation_id env) msg_both)
              (DelRelease None) (fun e => DelRelease (Some e)) s)
  | DelWriteDeleted =>
      Some (call i w (WriteMessageToReservationOutput (reservation_id env) msg_deleted)
              (DelRelease None) (fun e => DelRelease (Some e)) s)
  | DelRelease r =>
      Some (goto i w (match r with Some e => Except e | None => DelReturn end)
              (with_lock None s))
  | DelReturn =>
      Some (goto i w (Done (Return (Some resource_name))) s)
  | PowCheck =>
      Some (goto i w (if negb (flag_power_off (status s)) then PowAcquire else PowCommand) s)
  | PowAcquire =>
      match lock s with
      | None => Some (goto i w PowRecheck (with_lock (Some i) s))
      | Some _ => None
      end
  | PowRecheck =>
      Some (goto i w (if negb (flag_power_off (status s)) then PowSet
                      else PowRelease None) s)
  | PowSet =>
      Some (goto i w PowWrite (with_status (set_power_off (status s)) s))
  | PowWrite =>
      Some (call i w (WriteMessageToReservationOutput (reservation_id env) msg_powering_off)
              (PowRelease None) (fun e => PowRelease (Some e)) s)
  | PowRelease r =>
      Some (goto i w (match r with Some e => Except e | None => PowCommand end)
              (with_lock None s))
  | PowCommand =>
      Some (call i w (ExecuteResourceConnectedCommand (reservation_id env) resource_name
                        "PowerOff" "power")
              ReturnNone Except s)
  | ReturnNone =>
      Some (goto i w (Done (Return None)) s)
  | Except e =>
      Some (say i w Error (worker_error_log resource_name e) (Done (Return None)) s)
  | Done _ => None
  end.

Definition finished (w : worker) : bool :=
  match at_pc w with
  | Done _ => true
  | _ => false
  end.

(** One action of the main thread: fetch the details of the next resource
    and hand it to the pool when it is VM-backed (lines 90-95), or, with
    nothing left to submit, return from [pool.join()] once every worker
    has finished (lines 97-98). *)
Definition main_step (s : pool) : option pool :=
  match main s with
  | Submitting (resource :: todo) =>
      match api (GetResourceDetails (ResourceName resource)) (hist s) with
      | (Raise e, h) =>
          Some {| hist := h; status := status s; lock := lock s;
                  workers := workers s; main := Failed e |}
      | (Return _, h) =>
          let resource_details := resource_details env (ResourceName resource) in
          Some {| hist := h; status := status s; lock := lock s;
                  workers :=
                    match VmDetails resource_details with
                    | Some _ => workers s ++ [{| info := resource_details; at_pc := Begin |}]
                    | None => workers s
                    end;
                  main := Submitting todo |}
      end
  | Submitting [] =>
      if forallb finished (workers s)
      then Some {| hist := hist s; status := status s; lock := lock s;
                   workers := workers s; main := Joined |}
      else None
  | Joined => None
  | Failed _ => None
  end.

Definition step (t : thread) (s : pool) : option pool :=
  match t with
  | MainThread => main_step s
  | Worker i =>
      match workers s !! i with
      | Some w => worker_step i w s
      | None => None
      end
  end.

(** A schedule names the thread to move at each instant; a thread that
    cannot move leaves the state as it is. *)
Fixpoint run (sched : list thread) (s : pool) : pool :=
  match sched with
  | [] => s
  | t :: rest => run rest (default s (step t s))
  end.

(** Letting the pool finish.  [pool.join()] returns only when every worker
    has returned, whatever the interleaving was; [drain] moves the threads
    that can still move, the lock holder first, until the main thread has
    joined (or failed). *)
Fixpoint first_unfinished (i : nat) (ws : list worker) : option nat :=
  match ws with
  | [] => None
  | w :: r => if finished w then first_unfinished (S i) r else Some i
  end.

Definition pick (s : pool) : option thread :=
  match main s with
  | Submitting todo =>
      match lock s with
      | Some i => Some (Worker i)
      | None =>
          match todo with
          | _ :: _ => Some MainThread
          | [] =>
              match first_unfinished 0 (workers s) with
              | Some i => Some (Worker i)
              | None => Some MainThread
              end
          end
      end
  | Joined => None
  | Failed _ => None
  end.

Fixpoint drain (fuel : nat) (s : pool) : pool :=
  match fuel with
  | O => s
  | S fuel' =>
      match pick s with
      | Some t =>
          match step t s with
          | Some s' => drain fuel' s'
          | None => s
          end
      | None => s
      end
  end.

(** An upper bound on the actions a worker still has to perform. *)
Definition rank (p : pc) : nat :=
  match p with
  | Begin => 10
  | DelCheck => 9
  | DelAcquire => 8
  | DelRecheck => 7
  | DelSet => 6
  | DelReadPower => 5
  | DelSetPower => 4
  | DelWriteBoth => 3
  | DelWriteDeleted => 3
  | DelRelease _ => 2
  | DelReturn => 1
  | PowCheck => 8
  | PowAcquire => 7
  | PowRecheck => 6
  | PowSet => 5
  | PowWrite => 4
  | PowRelease _ => 3
  | PowCommand => 2
  | ReturnNone => 1
  | Except _ => 1
  | Done _ => 0
  end.

Definition budget (s : pool) : nat :=
  match main s with
  | Submitting todo =>
      1 + 11 * length todo + sum_list_with (fun w => rank (at_pc w)) (workers s)
  | Joined => 0
  | Failed _ => 0
  end.

Definition pool_init (h : history) (resources : list resource) : pool :=
  {| hist := h;
     status := {| flag_power_off := false; flag_delete := false |};
     lock := None;
     workers := [];
     main := Submitting resources |}.

(** The pool phase under a schedule: the threads move as the schedule
    says, then the pool is drained. *)
Definition run_pool (sched : list thread) (h : history) (resources : list resource)
  : pool :=
  let s := run sched (pool_init h resources) in
  drain (budget s) s.

(** *** _power_off_and_delete_all_vm_resources (lines 71-115) *)

Definition raise {A} (e : exn) : M A := fun h => (Raise e, h).

(** Lines 100-104: [async_result.get()] gives the worker's return value,
    or raises what the worker raised. *)
Fixpoint collect (async_results : list worker) (resource_to_delete : list string)
  : outcome (list string) :=
  match async_results with
  | [] => Return resource_to_delete
  | w :: rest =>
      match at_pc w with
      | Done (Return (Some result)) => collect rest (resource_to_delete ++ [result])
      | Done (Return None) => collect rest resource_to_delete
      | Done (Raise e) => Raise e
      | _ => collect rest resource_to_delete
      end
  end.

Definition remove_error_log (message : string) : string :=
  "Error executing RemoveResourcesFromReservation command. Error: " ++ message.

Definition REMOVE_DEPLOYED_RESOURCE_ERROR : pyval := PyInt 153.

Definition remove_handler (e : exn) : M unit :=
  match e with
  | CloudShellAPIError code message =>
      if pyval_eqb code REMOVE_DEPLOYED_RESOURCE_ERROR then
        let* _ := logger Error (remove_error_log message) in
        write_message message
      else ret tt
  | Exception _ => raise e
  end.

(** Lines 106-115. *)
Definition remove_resources (resource_to_delete : list string) : M unit :=
  match resource_to_delete with
  | [] => ret tt
  | _ =>
      try_except
        (api (RemoveResourcesFromReservation (reservation_id env) resource_to_delete))
        remove_handler
  end.

Definition _power_off_and_delete_all_vm_resources (sched : list thread)
    (rd : reservation_details) : M unit :=
  fun h =>
    let resources := get_resources_created_in_res env rd (reservation_id env) in
    let s := run_pool sched h resources in
    match main s with
    | Failed e => (Raise e, hist s)
    | _ =>
        match collect (workers s) [] with
        | Return resource_to_delete => remove_resources resource_to_delete (hist s)
        | Raise e => (Raise e, hist s)
        end
    end.

(** *** _cleanup_connectivity (lines 179-188) *)

Definition _cleanup_connectivity : M unit :=
  let* _ := logger Info ("Cleaning-up connectivity for reservation " ++ reservation_id env) in
  let* _ := write_message "Cleaning-up connectivity" in
  api (CleanupSandboxConnectivity (reservation_id env)).

(** *** execute (lines 22-37)

    The [profileit] decorator and the creation of the API session are left
    out; the schedule of the pool phase is an argument. *)

Definition execute (sched : list thread) : M unit :=
  let* _ := api (GetReservationDetails (reservation_id env)) in
  let reservation_details := reservation env in
  let* _ := write_message "Beginning reservation teardown" in
  let* _ := _disconnect_all_routes_in_reservation reservation_details in
  let* _ := _power_off_and_delete_all_vm_resources sched reservation_details in
  let* _ := _cleanup_connectivity in
  let* _ := logger Info ("Teardown for reservation " ++ reservation_id env ++ " completed") in
  write_message "Reservation teardown finished successfully".

End Teardown.

(** ** Vocabulary of the statements *)

Fixpoint count (p : event -> bool) (h : history) : nat :=
  match h with
  | [] => 0
  | e :: r => (if p e then 1 else 0) + count p r
  end.

Definition is_error_log (e : event) : bool :=
  match e with
  | EvLog Error _ => true
  | _ => false
  end.

Definition is_disconnect_call (e : event) : bool :=
  match e with
  | EvApi (DisconnectRoutesInReservation _ _) => true
  | _ => false
  end.

Definition is_remove_call (e : event) : bool :=
  match e with
  | EvApi (RemoveResourcesFromReservation _ _) => true
  | _ => false
  end.

Definition writes_message (m : string) (e : event) : bool :=
  match e with
  | EvApi (WriteMessageToReservationOutput _ m') => String.eqb m' m
  | _ => false
  end.

(** The two classes of status messages. *)
Definition power_off_class (e : event) : bool :=
  writes_message msg_both e || writes_message msg_powering_off e.

Definition deleted_class (e : event) : bool :=
  writes_message msg_both e || writes_message msg_deleted e.

(** The error code the disconnect handler lets pass. *)
Definition connection_not_found (e : exn) : bool :=
  match e with
  | CloudShellAPIError code _ => pyval_eqb code (PyStr "123")
  | Exception _ => false
  end.

(** The error carries the given code, written as a number or as text. *)
Definition names_code (num : Z) (txt : string) (e : exn) : bool :=
  match e with
  | CloudShellAPIError (PyInt z) _ => Z.eqb z num
  | CloudShellAPIError (PyStr s) _ => String.eqb s txt
  | Exception _ => false
  end.

Definition not_connected (c : connector) : Prop :=
  State c <> "Connected" /\ State c <> "PartiallyConnected".

(** The history right before the bulk disconnect call of line 56. *)
Definition before_disconnect (env : Env) (h : history) : history :=
  EvApi (WriteMessageToReservationOutput (reservation_id env) "Disconnecting all apps...")
    :: EvLog Info ("Executing disconnect routes for reservation " ++ reservation_id env)
    :: h.

(** ** Vocabulary of the pool invariants *)

(** Program points inside one of the two [with lock] blocks. *)
Definition critical (p : pc) : bool :=
  match p with
  | DelRecheck | DelSet | DelReadPower | DelSetPower
  | DelWriteBoth | DelWriteDeleted | DelRelease _
  | PowRecheck | PowSet | PowWrite | PowRelease _ => true
  | _ => false
  end.

(** The program point of the worker holding the lock, if any. *)
Definition holder_pc (s : pool) : option pc :=
  match lock s with
  | Some i => at_pc <$> (workers s !! i)
  | None => None
  end.

(** [np] and [nd] count the power-off-class and deleted-class messages the
    pool has written.  Outside the critical sections they mirror the two
    flags, and [delete] is set only together with [power_off]. *)
Definition settled (m : message_status) (np nd : nat) : Prop :=
  np = Nat.b2n (flag_power_off m)
  /\ nd = Nat.b2n (flag_delete m)
  /\ (flag_delete m = true -> flag_power_off m = true).

(** What holds of flags and counts while the lock holder is at [hp]. *)
Definition consistent (hp : option pc) (m : message_status) (np nd : nat) : Prop :=
  match hp with
  | Some DelSet => settled m np nd /\ flag_delete m = false
  | Some DelReadPower =>
      flag_delete m = true /\ nd = 0 /\ np = Nat.b2n (flag_power_off m)
  | Some DelSetPower =>
      flag_delete m = true /\ nd = 0 /\ flag_power_off m = false /\ np = 0
  | Some DelWriteBoth =>
      flag_delete m = true /\ flag_power_off m = true /\ nd = 0 /\ np = 0
  | Some DelWriteDeleted =>
      flag_delete m = true /\ flag_power_off m = true /\ nd = 0 /\ np = 1
  | Some PowSet => settled m np nd /\ flag_power_off m = false
  | Some PowWrite =>
      flag_power_off m = true /\ flag_delete m = false /\ np = 0 /\ nd = 0
  | _ => settled m np nd
  end.

(** Every 'Apps are being deleted...' has a power-off-class message before
    it (histories list the most recent event first). *)
Fixpoint deleted_follows_power (h : history) : Prop :=
  match h with
  | [] => True
  | e :: older =>
      (writes_message msg_deleted e = true -> 0 < count power_off_class older)
      /\ deleted_follows_power older
  end.

(** The lock discipline: a worker is inside a critical section exactly
    when it holds the lock, and the holder is one of the workers. *)
Definition lock_discipline (s : pool) : Prop :=
  (forall i w, workers s !! i = Some w ->
     (critical (at_pc w) = true <-> lock s = Some i))
  /\ (forall i, lock s = Some i -> is_Some (workers s !! i)).

(** The invariant of the pool phase started from history [h0]. *)
Definition pool_inv (h0 : history) (s : pool) : Prop :=
  lock_discipline s
  /\ exists added,
       hist s = (added ++ h0)%list
       /\ consistent (holder_pc s) (status s)
            (count power_off_class added) (count deleted_class added)
       /\ deleted_follows_power added.

(** Accesses to the shared dict. *)
Inductive flag := PowerOffFlag | DeleteFlag.

Inductive access :=
| Reads (f : flag)
| Writes (f : flag).

(** The access to [message_status] performed by the action at [p]. *)
Definition access_at (p : pc) : option access :=
  match p with
  | DelCheck => Some (Reads DeleteFlag)
  | DelRecheck => Some (Reads DeleteFlag)
  | DelSet => Some (Writes DeleteFlag)
  | DelReadPower => Some (Reads PowerOffFlag)
  | DelSetPower => Some (Writes PowerOffFlag)
  | PowCheck => Some (Reads PowerOffFlag)
  | PowRecheck => Some (Reads PowerOffFlag)
  | PowSet => Some (Writes PowerOffFlag)
  | _ => None
  end.

(** The tests of lines 136 and 162, made before the lock is taken. *)
Definition first_check (p : pc) : bool :=
  match p with
  | DelCheck | PowCheck => true
  | _ => false
  end.

(** The main thread has left the pool phase. *)
Definition left_pool (m : main_pc) : bool :=
  match m with
  | Submitting _ => false
  | Joined => true
  | Failed _ => true
  end.

(** The API call a worker is about to make, if its next action is one. *)
Definition pending_call (env : Env) (w : worker) : option api_call :=
  match at_pc w with
  | DelWriteBoth =>
      Some (WriteMessageToReservationOutput (reservation_id env) msg_both)
  | DelWriteDeleted =>
      Some (WriteMessageToReservationOutput (reservation_id env) msg_deleted)
  | PowWrite =>
      Some (WriteMessageToReservationOutput (reservation_id env) msg_powering_off)
  | PowCommand =>
      Some (ExecuteResourceConnectedCommand (reservation_id env) (Name (info w))
              "PowerOff" "power")
  | _ => None
  end.

(** Where a worker goes when the status message of its critical section
    raises [e]. *)
Definition at_release (p : pc) (e : exn) : pc :=
  match p with
  | PowWrite => PowRelease (Some e)
  | _ => DelRelease (Some e)
  end.

(** The worker has finished by raising: what [async_result.get()] would
    raise again in the main thread. *)
Definition escaped (w : worker) : bool :=
  match at_pc w with
  | Done (Raise _) => true
  | _ => false
  end.

(** ** Vocabulary of the two uniform runs *)

Definition details_of (env : Env) (r : resource) : resource_info :=
  resource_details env (ResourceName r).

Definition vm_backed (ri : resource_info) : Prop := is_Some (VmDetails ri).

(** [auto_delete] is absent, or "true" up to case. *)
Definition wants_delete (ri : resource_info) : Prop :=
  match get_vm_custom_param ri "auto_delete" with
  | Some p => lower (Value p) = "true"
  | None => True
  end.

(** [auto_delete] is "false", and [auto_power_off] is absent or "true" up
    to case. *)
Definition wants_power_off (ri : resource_info) : Prop :=
  (exists p, get_vm_custom_param ri "auto_delete" = Some p /\ Value p = "false")
  /\ match get_vm_custom_param ri "auto_power_off" with
     | Some p => lower (Value p) = "true"
     | None => True
     end.

(** Where a worker of a resource to delete can be when no status message
    fails, and what it then knows of the delete flag. *)
Definition delete_local (m : message_status) (w : worker) : Prop :=
  wants_delete (info w)
  /\ match at_pc w with
     | Begin | DelCheck | DelAcquire | DelRecheck | DelSet => True
     | DelReadPower | DelSetPower | DelWriteBoth | DelWriteDeleted
     | DelRelease None | DelReturn => flag_delete m = true
     | Done (Return (Some n)) => n = Name (info w) /\ flag_delete m = true
     | _ => False
     end.

(** The same for a resource to power off. *)
Definition power_local (m : message_status) (w : worker) : Prop :=
  wants_power_off (info w)
  /\ match at_pc w with
     | Begin | PowCheck | PowAcquire | PowRecheck | PowSet => True
     | PowWrite | PowRelease None | PowCommand | ReturnNone | Except _
     | Done (Return None) => flag_power_off m = true
     | _ => False
     end.

(** The worker has issued its power-off command. *)
Definition commanded (p : pc) : bool :=
  match p with
  | ReturnNone | Except _ | Done _ => true
  | _ => false
  end.

(** A power-off command for a resource whose name satisfies [P]. *)
Definition is_power_off_for (P : string -> bool) (e : event) : bool :=
  match e with
  | EvApi (ExecuteResourceConnectedCommand _ n "PowerOff" "power") => P n
  | _ => false
  end.

Definition remaining (m : main_pc) : option (list resource) :=
  match m with
  | Submitting todo => Some todo
  | Joined => Some []
  | Failed _ => None
  end.

(** The main thread has not failed, the workers are those of the resources
    submitted so far, in order, and after the join all have finished. *)
Definition submitted (env : Env) (resources : list resource) (s : pool) : Prop :=
  (exists done todo,
     remaining (main s) = Some todo
     /\ resources = (done ++ todo)%list
     /\ map info (workers s) = map (details_of env) done)
  /\ (main s = Joined -> forallb finished (workers s) = true).

Definition delete_inv (env : Env) (resources : list resource) (h0 : history)
    (s : pool) : Prop :=
  Forall (delete_local (status s)) (workers s)
  /\ submitted env resources s
  /\ count is_remove_call (hist s) = count is_remove_call h0.

Definition power_inv (env : Env) (resources : list resource) (h0 : history)
    (P : string -> bool) (s : pool) : Prop :=
  Forall (power_local (status s)) (workers s)
  /\ submitted env resources s
  /\ count is_remove_call (hist s) = count is_remove_call h0
  /\ count (writes_message msg_both) (hist s) = count (writes_message msg_both) h0
  /\ count (is_power_off_for P) (hist s)
     = count (is_power_off_for P) h0
       + sum_list_with
           (fun w => Nat.b2n (P (Name (info w)) && commanded (at_pc w)))
           (workers s).

(** ** Vocabulary of failure handling in [execute] *)

(** The texts of the three status messages the workers write. *)
Definition is_announcement (m : string) : bool :=
  String.eqb m msg_both || String.eqb m msg_deleted || String.eqb m msg_powering_off.

(** The messages written by [execute] and [_cleanup_connectivity]
    themselves, outside any try block. *)
Definition coordinator_message (m : string) : bool :=
  String.eqb m "Beginning reservation teardown"
  || String.eqb m "Cleaning-up connectivity"
  || String.eqb m "Reservation teardown finished successfully".

(** [s] begins with [p]. *)
Fixpoint starts_with (p s : string) : bool :=
  match p, s with
  | EmptyString, _ => true
  | String a p', String b s' => Ascii.eqb a b && starts_with p' s'
  | String _ _, EmptyString => false
  end.

(** The error entries logged by the except handlers of lines 58-69 and
    110-115. *)
Definition handler_log (l : string) : bool :=
  starts_with "Error disconnecting all routes in reservation " l
  || starts_with "Error executing RemoveResourcesFromReservation command. Error: " l.

(** The last event is the error entry of one of these handlers: the write
    that comes next is the handler's report (lines 62, 68, 114). *)
Definition in_handler (h : history) : bool :=
  match h with
  | EvLog Error l :: _ => handler_log l
  | _ => false
  end.

(** The failures no try block covers: call [c], made after history [h],
    raising [e].  These are the two fetches, the cleanup call, the
    messages of [execute] and [_cleanup_connectivity], the report written
    by an except handler, and a bulk remove call raising something else
    than a structured API error.  Every other failure is caught: the
    'Disconnecting all apps...' message and the bulk disconnect call
    (lines 52-56), the calls of a worker (lines 126-173), and the bulk
    remove call raising a structured API error (lines 108-110). *)
Definition outside_try (h : history) (c : api_call) (e : exn) : bool :=
  match c with
  | GetReservationDetails _ => true
  | GetResourceDetails _ => true
  | CleanupSandboxConnectivity _ => true
  | WriteMessageToReservationOutput _ m => coordinator_message m || in_handler h
  | RemoveResourcesFromReservation _ _ =>
      match e with
      | CloudShellAPIError _ _ => false
      | Exception _ => true
      end
  | DisconnectRoutesInReservation _ _ => false
  | ExecuteResourceConnectedCommand _ _ _ _ => false
  end.

(** The histories [execute] goes through: after its first two calls, after
    the disconnect phase, after the power-off/delete phase, and right
    before the cleanup call. *)
Definition after_begin (env : Env) (h : history) : history :=
  EvApi (WriteMessageToReservationOutput (reservation_id env)
           "Beginning reservation teardown")
    :: EvApi (GetReservationDetails (reservation_id env))
    :: h.

(** The last three events of a teardown that ran to its end. *)
Definition completion (env : Env) (h : history) : history :=
  EvApi (WriteMessageToReservationOutput (reservation_id env)
           "Reservation teardown finished successfully")
    :: EvLog Info ("Teardown for reservation " ++ reservation_id env ++ " completed")
    :: EvApi (CleanupSandboxConnectivity (reservation_id env))
    :: h.

Definition after_disconnect (env : Env) (h : history) : history :=
  snd (_disconnect_all_routes_in_reservation env (reservation env) (after_begin env h)).

Definition after_pool (env : Env) (sched : list thread) (h : history) : history :=
  snd (_power_off_and_delete_all_vm_resources env sched (reservation env)
         (after_disconnect env h)).

Definition before_cleanup (env : Env) (sched : list thread) (h : history) : history :=
  EvApi (WriteMessageToReservationOutput (reservation_id env) "Cleaning-up connectivity")
    :: EvLog Info ("Cleaning-up connectivity for reservation " ++ reservation_id env)
    :: after_pool env sched h.

(** ** Vocabulary of further properties *)

(** A connector whose two ends are handed to the bulk disconnect call. *)
Definition routed (c : connector) : bool :=
  connected_state (State c) && truthy (Target c) && truthy (Source c).

(** The two decisions of lines 127-132 and 153-158. *)
Definition deletes (ri : resource_info) : bool :=
  String.eqb (lower (param_or_true ri "auto_delete")) "true".

Definition powers_off (ri : resource_info) : bool :=
  String.eqb (lower (param_or_true ri "auto_power_off")) "true".

(** Where a worker can be given the decisions taken for its resource, and
    what it then knows of the flags. *)
Definition path_ok (m : message_status) (w : worker) : Prop :=
  match at_pc w with
  | Begin => True
  | DelCheck | DelAcquire | DelRecheck | DelSet => deletes (info w) = true
  | DelReadPower | DelSetPower | DelWriteBoth | DelWriteDeleted
  | DelRelease _ | DelReturn =>
      deletes (info w) = true /\ flag_delete m = true
  | Done (Return (Some n)) =>
      deletes (info w) = true /\ n = Name (info w) /\ flag_delete m = true
  | PowCheck | PowAcquire | PowRecheck | PowSet =>
      deletes (info w) = false /\ powers_off (info w) = true
  | PowWrite | PowRelease _ | PowCommand =>
      deletes (info w) = false /\ powers_off (info w) = true
      /\ flag_power_off m = true
  | ReturnNone =>
      deletes (info w) = false
      /\ (powers_off (info w) = true -> flag_power_off m = true)
  | Except _ | Done (Return None) =>
      (deletes (info w) = true -> flag_delete m = true)
      /\ (deletes (info w) = false -> powers_off (info w) = true ->
          flag_power_off m = true)
  | Done (Raise _) => False
  end.

(** The workers are those of VM-backed resources of the reservation, and
    what is left to submit is a tail of the resource list. *)
Definition origin_inv (env : Env) (resources : list resource) (s : pool) : Prop :=
  (forall todo, main s = Submitting todo ->
     exists done, resources = (done ++ todo)%list)
  /\ Forall (fun w => exists r, In r resources /\ info w = details_of env r
                                /\ is_Some (VmDetails (info w)))
       (workers s).

(** The power-off command was issued for a resource that is kept and
    powered off. *)
Definition power_off_justified (env : Env) (resources : list resource) (e : event)
  : Prop :=
  match e with
  | EvApi (ExecuteResourceConnectedCommand _ n _ _) =>
      exists r, In r resources /\ n = Name (details_of env r)
                /\ deletes (details_of env r) = false
                /\ powers_off (details_of env r) = true
  | _ => True
  end.

(** The events of the pool phase proper. *)
Definition pool_event (env : Env) (e : event) : bool :=
  match e with
  | EvLog _ _ => true
  | EvApi (GetResourceDetails _) => true
  | EvApi (WriteMessageToReservationOutput rid m) =>
      String.eqb rid (reservation_id env) && is_announcement m
  | EvApi (ExecuteResourceConnectedCommand rid _ c t) =>
      String.eqb rid (reservation_id env) && String.eqb c "PowerOff"
      && String.eqb t "power"
  | _ => false
  end.

Definition fetch_event (r : resource) : event :=
  EvApi (GetResourceDetails (ResourceName r)).

(** The details of the VM-backed resources among [rs], in order: what the
    main thread hands to the pool. *)
Definition submitted_infos (env : Env) (rs : list resource) : list resource_info :=
  flat_map (fun r => match VmDetails (details_of env r) with
                     | Some _ => [details_of env r]
                     | None => []
                     end) rs.

(** The resource makes its worker announce: it is to be deleted or to be
    powered off. *)
Definition announces (ri : resource_info) : bool := deletes ri || powers_off ri.

(** ** Sample environments *)

Definition vm (n : string) (ps : list vm_custom_param) : resource_info :=
  {| Name := n; VmDetails := Some {| VmCustomParams := ps |} |}.

Definition param (k v : string) : vm_custom_param :=
  {| ParamName := k; Value := v |}.

Definition link (st : string) : connector :=
  {| State := st; Source := Some "a"; Target := Some "b" |}.

(** A reservation with the given connectors and resource names, whose
    resources all carry the custom parameters [ps], and an API that fails
    as [fails] says. *)
Definition sample (cs : list connector) (names : list string)
    (ps : list vm_custom_param) (fails : history -> api_call -> option exn) : Env :=
  {| reservation_id := "r1";
     raises := fails;
     reservation := {| Connectors := cs;
                       Resources := map (fun n => {| ResourceName := n |}) names |};
     resource_details := fun n => vm n ps;
     get_resources_created_in_res := fun rd _ => Resources rd;
     str_exn := exn_message |}.

Definition never_fails : history -> api_call -> option exn := fun _ _ => None.

Definition disconnect_fails (e : exn) : history -> api_call -> option exn :=
  fun _ c =>
    match c with
    | DisconnectRoutesInReservation _ _ => Some e
    | _ => None
    end.

Definition refused : exn := Exception "connection refused".

(** The server is gone from the disconnect call on: that call and every
    later one fail. *)
Definition down_from_disconnect : history -> api_call -> option exn :=
  fun h c =>
    match c with
    | DisconnectRoutesInReservation _ _ => Some refused
    | _ => if Nat.ltb 0 (count is_disconnect_call h) then Some refused else None
    end.

Definition remove_fails (e : exn) : history -> api_call -> option exn :=
  fun _ c =>
    match c with
    | RemoveResourcesFromReservation _ _ => Some e
    | _ => None
    end.

(** The disconnect call and every power-off command fail. *)
Definition disconnect_and_commands_fail : history -> api_call -> option exn :=
  fun _ c =>
    match c with
    | DisconnectRoutesInReservation _ _ => Some (CloudShellAPIError (PyStr "500") "bad")
    | ExecuteResourceConnectedCommand _ _ _ _ => Some (Exception "unreachable")
    | _ => None
    end.

(** Fetching the details of the resource named [n] fails. *)
Definition fetch_fails (n : string) : history -> api_call -> option exn :=
  fun _ c =>
    match c with
    | GetResourceDetails n' =>
        if String.eqb n' n then Some (Exception "no such resource") else None
    | _ => None
    end.

(** Like [sample], but no resource has VM details. *)
Definition sample_plain (names : list string) : Env :=
  {| reservation_id := "r1";
     raises := never_fails;
     reservation := {| Connectors := [];
                       Resources := map (fun n => {| ResourceName := n |}) names |};
     resource_details := fun n => {| Name := n; VmDetails := None |};
     get_resources_created_in_res := fun rd _ => Resources rd;
     str_exn := exn_message |}.

Definition cleanup_fails : history -> api_call -> option exn :=
  fun _ c =>
    match c with
    | CleanupSandboxConnectivity _ => Some (Exception "cleanup failed")
    | _ => None
    end.

Definition message_fails (m : string) : history -> api_call -> option exn :=
  fun _ c =>
    match c with
    | WriteMessageToReservationOutput _ m' =>
        if String.eqb m' m then Some (Exception "output unavailable") else None
    | _ => None
    end.

(** ** Proofs: the sequential phases *)

Section Sequential.

Variable env : Env.

Lemma collect_endpoints_none (cs : list connector) (acc : list string) :
  Forall not_connected cs -> collect_endpoints cs acc = acc.
Proof.
  intros H. revert acc.
  induction H as [|c cs [Hc Hp] _ IH]; intros acc; simpl; [reflexivity|].
  unfold connected_state.
  apply String.eqb_neq in Hc, Hp. rewrite Hc, Hp. simpl. apply IH.
Qed.

(** C9. With no connector in state Connected or PartiallyConnected,
    disconnecting the routes does nothing but log the no-op message: it
    returns normally and the history gains that one info entry, hence no
    disconnect call. *)
Theorem disconnect_nothing_to_do (rd : reservation_details) (h : history) :
  Forall not_connected (Connectors rd) ->
  _disconnect_all_routes_in_reservation env rd h
    = (Return tt,
       EvLog Info ("No routes to disconnect for reservation " ++ reservation_id env) :: h)
  /\ count is_disconnect_call (snd (_disconnect_all_routes_in_reservation env rd h))
     = count is_disconnect_call h.
Proof.
  intros H. unfold _disconnect_all_routes_in_reservation.
  rewrite (collect_endpoints_none _ _ H). split; reflexivity.
Qed.

(** What the disconnect phase does once the bulk call has raised [e]. *)
Lemma disconnect_call_raises (rd : reservation_details) (h : history) (e : exn) :
  let endpoints := collect_endpoints (Connectors rd) [] in
  let call := DisconnectRoutesInReservation (reservation_id env) endpoints in
  endpoints <> [] ->
  raises env (tl (before_disconnect env h))
    (WriteMessageToReservationOutput (reservation_id env) "Disconnecting all apps...") = None ->
  raises env (before_disconnect env h) call = Some e ->
  _disconnect_all_routes_in_reservation env rd h
    = disconnect_handler env e (EvApi call :: before_disconnect env h).
Proof.
  intros endpoints call Hne Hw Hd.
  unfold _disconnect_all_routes_in_reservation. fold endpoints.
  destruct endpoints as [|x l] eqn:E; [congruence|].
  unfold try_except, bind, logger, write_message, api. simpl in Hw. rewrite Hw.
  unfold before_disconnect in Hd. subst call. rewrite Hd. reflexivity.
Qed.

(** C5, as the code has it.  When the bulk disconnect call raises [e]:
    with code "123" nothing more happens and the phase returns normally;
    with an unstructured exception or any other code exactly one error
    entry is logged and exactly one error message is sent to the
    reservation output, and the phase returns normally unless sending that
    message raises, in which case what it raised leaves the phase.
    (Nothing is said of a code that is the number 123 rather than the
    string.) *)
Theorem disconnect_failure_handling (rd : reservation_details) (h : history) (e : exn) :
  let endpoints := collect_endpoints (Connectors rd) [] in
  let call := DisconnectRoutesInReservation (reservation_id env) endpoints in
  let h1 := EvApi call :: before_disconnect env h in
  let h2 := EvLog Error (disconnect_error_log env e) :: h1 in
  let report := WriteMessageToReservationOutput (reservation_id env)
                  (disconnect_error_message e) in
  endpoints <> [] ->
  raises env (tl (before_disconnect env h))
    (WriteMessageToReservationOutput (reservation_id env) "Disconnecting all apps...") = None ->
  raises env (before_disconnect env h) call = Some e ->
  (connection_not_found e = true ->
   _disconnect_all_routes_in_reservation env rd h = (Return tt, h1))
  /\ (names_code 123 "123" e = false ->
      _disconnect_all_routes_in_reservation env rd h
        = (match raises env h2 report with Some e' => Raise e' | None => Return tt end,
           EvApi report :: h2)
      /\ count is_error_log (EvApi report :: h2) = S (count is_error_log h)).
Proof.
  intros endpoints call h1 h2 report Hne Hw Hd.
  rewrite (disconnect_call_raises rd h e Hne Hw Hd).
  fold endpoints. fold call. fold h1.
  unfold connection_not_found, names_code, disconnect_handler.
  destruct e as [code m|m].
  - split.
    + intros ->. reflexivity.
    + intros Hc.
      assert (Hn : pyval_eqb code (PyStr "123") = false)
        by (destruct code; [reflexivity|exact Hc]).
      rewrite Hn. simpl. split; [|reflexivity].
      unfold bind, logger, write_message, api. fold h2. fold report.
      destruct (raises env h2 report); reflexivity.
  - split; [discriminate|]. intros _. split; [|reflexivity].
    unfold bind, logger, write_message, api. fold h2. fold report.
    destruct (raises env h2 report); reflexivity.
Qed.

(** C2, as the code has it.  When the bulk remove call raises a structured
    API error, the error is caught whatever its code is.  With code 153 one
    error entry is logged and the error's message is sent to the
    reservation output; with any other code nothing is logged or sent and
    the phase returns normally.  (Nothing is said of a code that is the
    string "153" rather than the number.) *)
Theorem bulk_remove_api_error (sched : list thread) (rd : reservation_details)
    (h : history) (names : list string) (code : pyval) (message : string) :
  let s := run_pool env sched h
             (get_resources_created_in_res env rd (reservation_id env)) in
  let call := RemoveResourcesFromReservation (reservation_id env) names in
  let h1 := EvLog Error (remove_error_log message) :: EvApi call :: hist s in
  let report := WriteMessageToReservationOutput (reservation_id env) message in
  main s = Joined ->
  collect (workers s) [] = Return names ->
  names <> [] ->
  raises env (hist s) call = Some (CloudShellAPIError code message) ->
  (code = PyInt 153 ->
   _power_off_and_delete_all_vm_resources env sched rd h
     = (match raises env h1 report with Some e' => Raise e' | None => Return tt end,
        EvApi report :: h1))
  /\ (names_code 153 "153" (CloudShellAPIError code message) = false ->
      _power_off_and_delete_all_vm_resources env sched rd h
        = (Return tt, EvApi call :: hist s)).
Proof.
  intros s call h1 report Hm Hc Hne Hr.
  unfold _power_off_and_delete_all_vm_resources. fold s. rewrite Hm, Hc.
  unfold remove_resources. destruct names as [|n l]; [congruence|].
  unfold try_except, api. fold call. rewrite Hr. simpl.
  unfold REMOVE_DEPLOYED_RESOURCE_ERROR. split.
  - intros ->. simpl.
    unfold bind, logger, write_message, api. fold call. fold h1. fold report.
    destruct (raises env h1 report); reflexivity.
  - intros Hn.
    assert (Hf : pyval_eqb code (PyInt 153) = false)
      by (destruct code; [exact Hn|reflexivity]).
    rewrite Hf. reflexivity.
Qed.

End Sequential.

Lemma disconnect_failure_handling_witness :
  let env := sample [link "Connected"] [] []
               (disconnect_fails (CloudShellAPIError (PyStr "500") "bad")) in
  _disconnect_all_routes_in_reservation env (reservation env) []
  = (Return tt,
     [EvApi (WriteMessageToReservationOutput "r1" "Error disconnecting apps. Error: bad");
      EvLog Error "Error disconnecting all routes in reservation r1. Error: bad";
      EvApi (DisconnectRoutesInReservation "r1" ["b"; "a"]);
      EvApi (WriteMessageToReservationOutput "r1" "Disconnecting all apps...");
      EvLog Info "Executing disconnect routes for reservation r1"])
  /\ count is_error_log
       (snd (_disconnect_all_routes_in_reservation env (reservation env) [])) = 1.
Proof.
  exact (proj2 (disconnect_failure_handling
                  (sample [link "Connected"] [] []
                     (disconnect_fails (CloudShellAPIError (PyStr "500") "bad")))
                  {| Connectors := [link "Connected"]; Resources := [] |} []
                  (CloudShellAPIError (PyStr "500") "bad")
                  ltac:(discriminate) eq_refl eq_refl) eq_refl).
Defined.

(** C5 as stated fails: the server goes away at the disconnect call, the
    handler logs the error, and its own message to the reservation output
    raises out of the phase. *)
Lemma disconnect_handler_raises :
  let env := sample [link "Connected"] [] [] down_from_disconnect in
  raises env (before_disconnect env [])
    (DisconnectRoutesInReservation "r1" ["b"; "a"]) = Some refused
  /\ _disconnect_all_routes_in_reservation env (reservation env) []
     = (Raise refused,
        [EvApi (WriteMessageToReservationOutput "r1"
                  "Error disconnecting apps. Error: connection refused");
         EvLog Error
           "Error disconnecting all routes in reservation r1. Error: connection refused";
         EvApi (DisconnectRoutesInReservation "r1" ["b"; "a"]);
         EvApi (WriteMessageToReservationOutput "r1" "Disconnecting all apps...");
         EvLog Info "Executing disconnect routes for reservation r1"]).
Proof. split; reflexivity. Qed.

Lemma disconnect_nothing_to_do_witness :
  let env := sample [link "Disconnected"] [] [] never_fails in
  _disconnect_all_routes_in_reservation env (reservation env) []
    = (Return tt, [EvLog Info "No routes to disconnect for reservation r1"])
  /\ count is_disconnect_call
       (snd (_disconnect_all_routes_in_reservation env (reservation env) [])) = 0.
Proof.
  apply (disconnect_nothing_to_do (sample [link "Disconnected"] [] [] never_fails)
           {| Connectors := [link "Disconnected"]; Resources := [] |} []).
  repeat constructor; discriminate.
Defined.

Lemma bulk_remove_api_error_witness :
  let env := sample [] ["vm1"] [] (remove_fails (CloudShellAPIError (PyInt 153) "in use")) in
  _power_off_and_delete_all_vm_resources env [] (reservation env) []
  = (Return tt,
     [EvApi (WriteMessageToReservationOutput "r1" "in use");
      EvLog Error "Error executing RemoveResourcesFromReservation command. Error: in use";
      EvApi (RemoveResourcesFromReservation "r1" ["vm1"]);
      EvApi (WriteMessageToReservationOutput "r1" "Apps are being powered off and deleted...");
      EvLog Info "Executing 'Delete' on deployed app vm1 in reservation r1";
      EvApi (GetResourceDetails "vm1")]).
Proof.
  exact (proj1 (bulk_remove_api_error
                  (sample [] ["vm1"] []
                     (remove_fails (CloudShellAPIError (PyInt 153) "in use")))
                  [] {| Connectors := []; Resources := [{| ResourceName := "vm1" |}] |} []
                  ["vm1"] (PyInt 153) "in use"
                  eq_refl eq_refl ltac:(discriminate) eq_refl) eq_refl).
Defined.

(** C2 as stated fails: a structured error with code 154 from the bulk
    remove call does not leave the phase. *)
Lemma bulk_remove_other_code_swallowed :
  let env := sample [] ["vm1"] [] (remove_fails (CloudShellAPIError (PyInt 154) "busy")) in
  _power_off_and_delete_all_vm_resources env [] (reservation env) []
  = (Return tt,
     [EvApi (RemoveResourcesFromReservation "r1" ["vm1"]);
      EvApi (WriteMessageToReservationOutput "r1" "Apps are being powered off and deleted...");
      EvLog Info "Executing 'Delete' on deployed app vm1 in reservation r1";
      EvApi (GetResourceDetails "vm1")]).
Proof. reflexivity. Qed.

(** C3 as stated fails: a failure of the connectivity cleanup call leaves
    [execute], and the completion announcement is never made. *)
Lemma cleanup_failure_aborts :
  let env := sample [] ["vm1"] [] cleanup_fails in
  fst (execute env [] []) = Raise (Exception "cleanup failed")
  /\ count (writes_message "Reservation teardown finished successfully")
       (snd (execute env [] [])) = 0.
Proof. split; reflexivity. Qed.

(** ** Proofs: the pool invariant *)

Local Open Scope list_scope.

(** Case analysis on one action of a worker. *)
Ltac step_cases Hs :=
  unfold worker_step in Hs;
  match type of Hs with
  | context [at_pc ?w] => destruct (at_pc w) eqn:?
  end; try discriminate;
  unfold call, say, goto, with_hist, with_status, with_lock, api in Hs;
  repeat match type of Hs with
         | context [if ?b then _ else _] => destruct b eqn:?
         | context [match ?x with Some _ => _ | None => _ end] => destruct x eqn:?
         end;
  try discriminate;
  injection Hs as <-.

Section Pool.

Variable env : Env.

Lemma count_app (p : event -> bool) (a b : history) :
  count p (a ++ b) = count p a + count p b.
Proof. induction a as [|e a IH]; simpl; [reflexivity|]. rewrite IH. lia. Qed.

Lemma holder_pc_moved (s : pool) (i : nat) (w : worker) (p : pc)
    (h : history) (m : message_status) (l : option nat) (mn : main_pc) :
  workers s !! i = Some w ->
  holder_pc {| hist := h; status := m; lock := l;
               workers := <[i := {| info := info w; at_pc := p |}]> (workers s);
               main := mn |}
  = match l with
    | Some j => if decide (j = i) then Some p else at_pc <$> (workers s !! j)
    | None => None
    end.
Proof.
  intros Hw. unfold holder_pc. simpl. destruct l as [j|]; [|reflexivity].
  destruct (decide (j = i)) as [->|Hne].
  - rewrite list_lookup_insert_eq; [reflexivity|]. eapply lookup_lt_Some; eauto.
  - rewrite list_lookup_insert_ne by congruence. reflexivity.
Qed.

(** The lock discipline survives a move of worker [i] that keeps the lock
    as it is, takes the free lock, or gives back the lock it holds. *)
Lemma discipline_moved (s : pool) (i : nat) (w : worker) (p : pc)
    (h : history) (m : message_status) (l : option nat) (mn : main_pc) :
  lock_discipline s ->
  workers s !! i = Some w ->
  (critical p = true <-> l = Some i) ->
  l = lock s \/ (l = Some i /\ lock s = None) \/ (l = None /\ lock s = Some i) ->
  lock_discipline {| hist := h; status := m; lock := l;
                     workers := <[i := {| info := info w; at_pc := p |}]> (workers s);
                     main := mn |}.
Proof.
  intros [L1 L2] Hw Hp Hl. split; simpl.
  - intros j wj Hj. destruct (decide (j = i)) as [->|Hne].
    + rewrite list_lookup_insert_eq in Hj by (eapply lookup_lt_Some; eauto).
      injection Hj as <-. exact Hp.
    + rewrite list_lookup_insert_ne in Hj by congruence.
      specialize (L1 j wj Hj).
      destruct Hl as [->|[[-> Hn]|[-> Hs]]]; [exact L1| |].
      * rewrite Hn in L1. split; [intros H; apply L1 in H; discriminate|congruence].
      * rewrite Hs in L1. split; [intros H; apply L1 in H; congruence|discriminate].
  - intros j Hj. destruct (decide (j = i)) as [->|Hne].
    + rewrite list_lookup_insert_eq by (eapply lookup_lt_Some; eauto). eauto.
    + rewrite list_lookup_insert_ne by congruence.
      destruct Hl as [->|[[-> Hn]|[-> Hs]]]; [auto|congruence|discriminate].
Qed.


Lemma holder_pc_of (s : pool) (i : nat) (w : worker) :
  workers s !! i = Some w -> lock s = Some i -> holder_pc s = Some (at_pc w).
Proof. intros Hw Hl. unfold holder_pc. rewrite Hl, Hw. reflexivity. Qed.

Lemma holder_pc_other (s : pool) (i : nat) (w : worker) (p : pc) :
  lock_discipline s -> workers s !! i = Some w -> critical (at_pc w) = false ->
  match lock s with
  | Some j => if decide (j = i) then Some p else at_pc <$> (workers s !! j)
  | None => None
  end = holder_pc s.
Proof.
  intros [L1 _] Hw Hc. unfold holder_pc. destruct (lock s) as [j|] eqn:Hl; [|reflexivity].
  destruct (decide (j = i)) as [->|]; [|reflexivity].
  pose proof (proj2 (L1 i w Hw) eq_refl). congruence.
Qed.

Lemma pool_inv_worker_step (h0 : history) (s s' : pool) (i : nat) (w : worker) :
  pool_inv h0 s -> workers s !! i = Some w -> worker_step env i w s = Some s' ->
  pool_inv h0 s'.
Proof.
  intros [LD (added & Hh & Hc & Ho)] Hw Hs.
  pose proof (proj1 LD i w Hw) as Lw.
  unfold worker_step in Hs.
  destruct (at_pc w) eqn:Hpc; simpl in Lw.
  all: try discriminate.
  all: try (assert (Hl : lock s = Some i) by (apply Lw; reflexivity);
            pose proof (holder_pc_of s i w Hw Hl) as Hhp; rewrite Hpc in Hhp;
            rewrite Hhp in Hc; simpl in Hc).
  all: try (assert (Hnc : critical (at_pc w) = false) by (rewrite Hpc; reflexivity)).
  all: unfold call, say, goto, with_hist, with_status, with_lock, api in Hs.
  all: repeat match type of Hs with
              | context [if ?b then _ else _] => destruct b eqn:?
              | context [match ?x with Some _ => _ | None => _ end] =>
                  destruct x eqn:?
              end.
  all: try discriminate.
  all: injection Hs as <-.
  all: split;
    [ apply discipline_moved; simpl;
      [ exact LD | exact Hw
      | first [ exact Lw
              | split; intros; first [exact Hl | reflexivity | discriminate | congruence] ]
      | first [ left; congruence
              | right; left; split; [reflexivity | assumption]
              | right; right; split; [reflexivity | assumption] ] ]
    | ].
  all: first [ exists added; split; [exact Hh|]
             | eexists (_ :: added); split; [simpl; rewrite Hh; reflexivity|] ].
  all: rewrite (holder_pc_moved s i w _ _ _ _ _ Hw); cbn [hist status lock].
  all: try rewrite Hl.
  all: try rewrite (holder_pc_other s i w _ LD Hw Hnc).
  all: try (rewrite decide_True by reflexivity).
  all: try match goal with
           | H : lock _ = None |- _ => unfold holder_pc in Hc; rewrite H in Hc
           end.
  all: try (split; [simpl; exact Hc | simpl; first [exact Ho | split; [discriminate | exact Ho]]]).
  all: unfold set_delete, set_power_off; destruct (status s) as [[] []];
    simpl in *; unfold settled in *; simpl in *;
    intuition (try discriminate; try lia).
Qed.


Lemma discipline_submitted (s : pool) (h : history) (mn : main_pc) (ri : resource_info) :
  lock_discipline s ->
  lock_discipline {| hist := h; status := status s; lock := lock s;
                     workers := workers s ++ [{| info := ri; at_pc := Begin |}];
                     main := mn |}.
Proof.
  intros [L1 L2]. split; simpl.
  - intros j wj Hj. apply lookup_app_Some in Hj as [Hj|[Hge Hj]]; [exact (L1 j wj Hj)|].
    apply list_lookup_singleton_Some in Hj as [Hz <-]. simpl.
    split; [discriminate|]. intros Hl. apply L2 in Hl. apply lookup_lt_is_Some in Hl. lia.
  - intros j Hl. apply L2 in Hl. apply lookup_lt_is_Some in Hl.
    apply lookup_lt_is_Some. rewrite length_app. simpl. lia.
Qed.

Lemma holder_pc_submitted (s : pool) (h : history) (mn : main_pc) (ri : resource_info) :
  lock_discipline s ->
  holder_pc {| hist := h; status := status s; lock := lock s;
               workers := workers s ++ [{| info := ri; at_pc := Begin |}];
               main := mn |}
  = holder_pc s.
Proof.
  intros [_ L2]. unfold holder_pc. simpl. destruct (lock s) as [j|] eqn:Hl; [|reflexivity].
  specialize (L2 j eq_refl). apply lookup_lt_is_Some in L2.
  rewrite lookup_app_l by exact L2. reflexivity.
Qed.

Lemma pool_inv_main_step (h0 : history) (s s' : pool) :
  pool_inv h0 s -> main_step env s = Some s' -> pool_inv h0 s'.
Proof.
  intros [LD (added & Hh & Hc & Ho)] Hs.
  unfold main_step, api in Hs.
  destruct (main s) as [[|r todo]| |]; try discriminate.
  - destruct (forallb finished (workers s)); [|discriminate].
    injection Hs as <-. split; [exact LD|]. exists added. auto.
  - destruct (raises env (hist s) (GetResourceDetails (ResourceName r))) as [e|].
    + injection Hs as <-. split; [exact LD|].
      exists (EvApi (GetResourceDetails (ResourceName r)) :: added).
      simpl. rewrite Hh. repeat split; auto. discriminate.
    + injection Hs as <-.
      destruct (VmDetails (resource_details env (ResourceName r))).
      * split; [apply discipline_submitted; exact LD|].
        exists (EvApi (GetResourceDetails (ResourceName r)) :: added).
        rewrite holder_pc_submitted by exact LD.
        simpl. rewrite Hh. repeat split; auto. discriminate.
      * split; [exact LD|].
        exists (EvApi (GetResourceDetails (ResourceName r)) :: added).
        simpl. rewrite Hh. repeat split; auto. discriminate.
Qed.

Lemma pool_inv_step (h0 : history) (s s' : pool) (t : thread) :
  pool_inv h0 s -> step env t s = Some s' -> pool_inv h0 s'.
Proof.
  intros Hi Hs. destruct t as [|i]; simpl in Hs.
  - eapply pool_inv_main_step; eauto.
  - destruct (workers s !! i) as [w|] eqn:Hw; [|discriminate].
    eapply pool_inv_worker_step; eauto.
Qed.

Lemma pool_inv_init (h0 : history) (resources : list resource) :
  pool_inv h0 (pool_init h0 resources).
Proof.
  split.
  - split; simpl; intros i; [intros w Hw; rewrite lookup_nil in Hw|]; discriminate.
  - exists []. repeat split; simpl; auto.
Qed.

Lemma pool_inv_run (h0 : history) (sched : list thread) (s : pool) :
  pool_inv h0 s -> pool_inv h0 (run env sched s).
Proof.
  revert s. induction sched as [|t sched IH]; intros s Hi; simpl; [exact Hi|].
  apply IH. destruct (step env t s) as [s'|] eqn:Hs; simpl; [|exact Hi].
  eapply pool_inv_step; eauto.
Qed.

Lemma pool_inv_drain (h0 : history) (fuel : nat) (s : pool) :
  pool_inv h0 s -> pool_inv h0 (drain env fuel s).
Proof.
  revert s. induction fuel as [|fuel IH]; intros s Hi; simpl; [exact Hi|].
  destruct (pick s) as [t|]; [|exact Hi].
  destruct (step env t s) as [s'|] eqn:Hs; [|exact Hi].
  apply IH. eapply pool_inv_step; eauto.
Qed.


(** *** The pool always finishes *)

Lemma sum_list_moved {A} (f : A -> nat) (ws : list A) (i : nat) (w w' : A) :
  ws !! i = Some w ->
  sum_list_with f (<[i := w']> ws) + f w = sum_list_with f ws + f w'.
Proof.
  revert i. induction ws as [|x ws IH]; intros [|i] Hw; simpl in *; try discriminate.
  - injection Hw as ->. lia.
  - specialize (IH i Hw). lia.
Qed.

Lemma worker_step_rank (s s' : pool) (i : nat) (w : worker) :
  worker_step env i w s = Some s' ->
  main s' = main s
  /\ exists p, workers s' = <[i := {| info := info w; at_pc := p |}]> (workers s)
               /\ rank p < rank (at_pc w).
Proof.
  intros Hs. unfold worker_step in Hs.
  destruct (at_pc w) eqn:Hpc; try discriminate.
  all: unfold call, say, goto, with_hist, with_status, with_lock, api in Hs.
  all: repeat match type of Hs with
              | context [if ?b then _ else _] => destruct b eqn:?
              | context [match ?x with Some _ => _ | None => _ end] =>
                  destruct x eqn:?
              end.
  all: try discriminate.
  all: injection Hs as <-; simpl; split; [reflexivity|].
  all: eexists; split; [reflexivity|simpl; lia].
Qed.

Lemma worker_can_move (s : pool) (i : nat) (w : worker) :
  lock s = None \/ critical (at_pc w) = true ->
  finished w = false ->
  is_Some (worker_step env i w s).
Proof.
  intros Hl Hf. unfold worker_step, finished in *.
  destruct (at_pc w); try discriminate; try (eexists; reflexivity).
  - repeat match goal with |- context [if ?b then _ else _] => destruct b end;
      eexists; reflexivity.
  - destruct Hl as [Hl|Hl]; [rewrite Hl; eexists; reflexivity|discriminate].
  - destruct Hl as [Hl|Hl]; [rewrite Hl; eexists; reflexivity|discriminate].
Qed.

Lemma first_unfinished_None (k : nat) (ws : list worker) :
  first_unfinished k ws = None -> forallb finished ws = true.
Proof.
  revert k. induction ws as [|w ws IH]; intros k H; simpl in *; [reflexivity|].
  destruct (finished w); [|discriminate]. simpl. eauto.
Qed.

Lemma first_unfinished_Some (k i : nat) (ws : list worker) :
  first_unfinished k ws = Some i ->
  exists w, ws !! (i - k) = Some w /\ finished w = false /\ k <= i.
Proof.
  revert k. induction ws as [|w ws IH]; intros k H; simpl in *; [discriminate|].
  destruct (finished w) eqn:Hf.
  - destruct (IH _ H) as (w' & Hw & Hf' & Hk).
    exists w'. replace (i - k) with (S (i - S k)) by lia. simpl. repeat split; auto. lia.
  - injection H as ->. exists w. rewrite Nat.sub_diag. auto.
Qed.

Lemma critical_not_finished (w : worker) : critical (at_pc w) = true -> finished w = false.
Proof. unfold finished. destruct (at_pc w); simpl; congruence. Qed.

(** A thread picked by [pick] can move, and its move uses up budget. *)
Lemma pick_progress (h0 : history) (s : pool) (todo : list resource) :
  pool_inv h0 s -> main s = Submitting todo ->
  exists t s', pick s = Some t /\ step env t s = Some s' /\ budget s' < budget s.
Proof.
  intros [[L1 L2] _] Hm. unfold pick. rewrite Hm.
  assert (Hw : forall i w, workers s !! i = Some w ->
                 (lock s = None \/ critical (at_pc w) = true) -> finished w = false ->
                 exists s', step env (Worker i) s = Some s' /\ budget s' < budget s).
  { intros i w Hw Hl Hf. destruct (worker_can_move s i w Hl Hf) as [s' Hs].
    exists s'. simpl. rewrite Hw. split; [exact Hs|].
    destruct (worker_step_rank s s' i w Hs) as (Hm' & p & Hws & Hr).
    unfold budget. rewrite Hm', Hm, Hws.
    pose proof (sum_list_moved (fun w => rank (at_pc w)) (workers s) i w
                  {| info := info w; at_pc := p |} Hw) as Hsum.
    simpl in Hsum. lia. }
  destruct (lock s) as [i|] eqn:Hl.
  - destruct (L2 i eq_refl) as [w Hwi].
    pose proof (proj2 (L1 i w Hwi) eq_refl) as Hc.
    destruct (Hw i w Hwi (or_intror Hc) (critical_not_finished w Hc)) as (s' & Hs & Hb).
    eauto.
  - destruct todo as [|r todo].
    + destruct (first_unfinished 0 (workers s)) as [i|] eqn:Hf.
      * destruct (first_unfinished_Some _ _ _ Hf) as (w & Hwi & Hfw & _).
        rewrite Nat.sub_0_r in Hwi.
        destruct (Hw i w Hwi (or_introl eq_refl) Hfw) as (s' & Hs & Hb). eauto.
      * apply first_unfinished_None in Hf.
        exists MainThread. eexists. split; [reflexivity|]. simpl.
        unfold main_step. rewrite Hm, Hf. split; [reflexivity|].
        unfold budget. simpl. rewrite Hm. lia.
    + exists MainThread. simpl. unfold main_step, api. rewrite Hm.
      destruct (raises env (hist s) (GetResourceDetails (ResourceName r))).
      * eexists. split; [reflexivity|]. split; [reflexivity|].
        unfold budget. simpl. rewrite Hm. lia.
      * eexists. split; [reflexivity|]. split; [reflexivity|].
        unfold budget. simpl. rewrite Hm.
        destruct (VmDetails _); simpl; [rewrite sum_list_with_app|]; simpl; lia.
Qed.

Lemma drain_leaves_pool (h0 : history) (fuel : nat) (s : pool) :
  pool_inv h0 s -> budget s <= fuel -> left_pool (main (drain env fuel s)) = true.
Proof.
  revert s. induction fuel as [|fuel IH]; intros s Hi Hb.
  - simpl. unfold budget in Hb. destruct (main s); simpl; auto. lia.
  - simpl. destruct (main s) as [todo| |] eqn:Hm.
    + destruct (pick_progress h0 s todo Hi Hm) as (t & s' & Hp & Hs & Hlt).
      rewrite Hp, Hs. apply IH; [eapply pool_inv_step; eauto|lia].
    + unfold pick. rewrite Hm. rewrite Hm. reflexivity.
    + unfold pick. rewrite Hm. rewrite Hm. reflexivity.
Qed.

(** A schedule that already takes the pool to the join leaves nothing to
    drain: the statements about [run_pool] speak of every complete
    interleaving. *)
Lemma run_pool_complete_schedule (h0 : history) (sched : list thread)
    (resources : list resource) :
  left_pool (main (run env sched (pool_init h0 resources))) = true ->
  run_pool env sched h0 resources = run env sched (pool_init h0 resources).
Proof.
  unfold run_pool. intros Hl.
  destruct (budget _) as [|n]; [reflexivity|]. simpl. unfold pick.
  destruct (main _); [discriminate|reflexivity|reflexivity].
Qed.

Lemma run_pool_inv (h0 : history) (sched : list thread) (resources : list resource) :
  pool_inv h0 (run_pool env sched h0 resources).
Proof. apply pool_inv_drain, pool_inv_run, pool_inv_init. Qed.

Lemma run_pool_leaves_pool (h0 : history) (sched : list thread) (resources : list resource) :
  left_pool (main (run_pool env sched h0 resources)) = true.
Proof.
  unfold run_pool. eapply drain_leaves_pool; [apply pool_inv_run, pool_inv_init|lia].
Qed.

End Pool.

(** ** Proofs: what every interleaving satisfies *)

Section Interleavings.

Variable env : Env.

Lemma consistent_bounds (hp : option pc) (m : message_status) (np nd : nat) :
  consistent hp m np nd -> np <= 1 /\ nd <= 1.
Proof.
  unfold consistent, settled. destruct m as [[] []].
  all: destruct hp as [[]|]; simpl; lia.
Qed.

(** C1. Whatever the resources and whatever the interleaving, at every
    instant of the pool phase and once it has completed, the pool has
    written at most one power-off-class message and at most one
    deleted-class message to the reservation output. *)
Theorem at_most_one_message_per_class (h0 : history) (resources : list resource)
    (sched : list thread) :
  (exists added,
     hist (run env sched (pool_init h0 resources)) = added ++ h0
     /\ count power_off_class added <= 1
     /\ count deleted_class added <= 1)
  /\ (exists added,
        hist (run_pool env sched h0 resources) = added ++ h0
        /\ count power_off_class added <= 1
        /\ count deleted_class added <= 1).
Proof.
  split.
  - destruct (pool_inv_run env h0 sched _ (pool_inv_init h0 resources))
      as [_ (added & Hh & Hc & _)].
    exists added. split; [exact Hh|]. eapply consistent_bounds; eauto.
  - destruct (run_pool_inv env h0 sched resources) as [_ (added & Hh & Hc & _)].
    exists added. split; [exact Hh|]. eapply consistent_bounds; eauto.
Qed.

Lemma power_off_class_split (h : history) :
  count power_off_class h
  = count (writes_message msg_both) h + count (writes_message msg_powering_off) h.
Proof.
  induction h as [|e h IH]; simpl; [reflexivity|]. rewrite IH.
  unfold power_off_class.
  destruct e as [lvl m|[]]; simpl; try lia.
  destruct (String.eqb_spec message msg_both) as [->|]; simpl; [lia|].
  destruct (String.eqb message msg_powering_off); lia.
Qed.

(** C10. In every interleaving: an 'Apps are being deleted...' message has
    a power-off-class message before it; whenever no worker holds the lock
    and the delete flag is set, the power_off flag is set too; and 'Apps
    are being powered off and deleted...' and 'Apps are powering off...'
    are never both written. *)
Theorem deleted_announced_after_power_off (h0 : history) (resources : list resource)
    (sched : list thread) :
  let s := run env sched (pool_init h0 resources) in
  (lock s = None -> flag_delete (status s) = true -> flag_power_off (status s) = true)
  /\ exists added,
       hist s = added ++ h0
       /\ deleted_follows_power added
       /\ ~ (0 < count (writes_message msg_both) added
             /\ 0 < count (writes_message msg_powering_off) added).
Proof.
  intros s.
  destruct (pool_inv_run env h0 sched _ (pool_inv_init h0 resources))
    as [_ (added & Hh & Hc & Ho)]. fold s in Hh, Hc.
  split.
  - intros Hl. unfold holder_pc in Hc. rewrite Hl in Hc. apply Hc.
  - exists added. repeat split; auto.
    apply consistent_bounds in Hc as [Hp _].
    rewrite power_off_class_split in Hp. lia.
Qed.

Lemma access_critical (p : pc) (a : access) :
  access_at p = Some a -> first_check p = false -> critical p = true.
Proof. destruct p; simpl; congruence. Qed.

Lemma write_not_first_check (p : pc) (f : flag) :
  access_at p = Some (Writes f) -> first_check p = false.
Proof. destruct p; simpl; congruence. Qed.

(** The dict changes only at the program points declared as writes. *)
Lemma status_changes_at_writes (s s' : pool) (i : nat) (w : worker) :
  worker_step env i w s = Some s' -> status s' <> status s ->
  exists f, access_at (at_pc w) = Some (Writes f).
Proof.
  intros Hs Hne. unfold worker_step in Hs.
  destruct (at_pc w) eqn:Hpc; try discriminate.
  all: unfold call, say, goto, with_hist, with_status, with_lock, api in Hs.
  all: repeat match type of Hs with
              | context [if ?b then _ else _] => destruct b eqn:?
              | context [match ?x with Some _ => _ | None => _ end] =>
                  destruct x eqn:?
              end.
  all: try discriminate.
  all: injection Hs as <-; simpl in *; try congruence; eauto.
Qed.

(** C4, as the code has it.  In every interleaving, every write of a
    shared flag is made by the worker holding the lock, and so is every
    read other than the first tests of lines 136 and 162, which are made
    before the lock is taken. *)
Theorem flags_written_under_lock (h0 : history) (resources : list resource)
    (sched : list thread) (i : nat) (w : worker) (a : access) :
  let s := run env sched (pool_init h0 resources) in
  workers s !! i = Some w ->
  access_at (at_pc w) = Some a ->
  (first_check (at_pc w) = false -> lock s = Some i)
  /\ (forall f, a = Writes f -> lock s = Some i).
Proof.
  intros s Hw Ha.
  destruct (pool_inv_run env h0 sched _ (pool_inv_init h0 resources)) as [[L1 _] _].
  fold s in L1.
  assert (H : first_check (at_pc w) = false -> lock s = Some i).
  { intros Hf. apply (L1 i w Hw). eapply access_critical; eauto. }
  split; [exact H|].
  intros f ->. apply H. eapply write_not_first_check; eauto.
Qed.

End Interleavings.

Lemma flags_written_under_lock_witness :
  let env := sample [] ["vm1"] [] never_fails in
  let s := run env [MainThread; Worker 0; Worker 0; Worker 0; Worker 0]
             (pool_init [] [{| ResourceName := "vm1" |}]) in
  (first_check DelSet = false -> lock s = Some 0)
  /\ (forall f, Writes DeleteFlag = Writes f -> lock s = Some 0).
Proof.
  exact (flags_written_under_lock (sample [] ["vm1"] [] never_fails) []
           [{| ResourceName := "vm1" |}]
           [MainThread; Worker 0; Worker 0; Worker 0; Worker 0]
           0 {| info := vm "vm1" []; at_pc := DelSet |} (Writes DeleteFlag)
           eq_refl eq_refl).
Defined.

(** C4 as stated fails: the first test of the delete flag (line 136) is a
    read of the shared dict by a worker that does not hold the lock. *)
Lemma first_check_reads_without_lock :
  let env := sample [] ["vm1"] [] never_fails in
  let s := run env [MainThread; Worker 0] (pool_init [] [{| ResourceName := "vm1" |}]) in
  workers s !! 0 = Some {| info := vm "vm1" []; at_pc := DelCheck |}
  /\ access_at DelCheck = Some (Reads DeleteFlag)
  /\ lock s = None
  /\ at_pc <$> (workers (run env [Worker 0] s) !! 0) = Some DelAcquire.
Proof. repeat split. Qed.

(** ** Proofs: exceptions inside a worker *)

Section WorkerExceptions.

Variable env : Env.

Lemma escaped_step (s s' : pool) (t : thread) :
  Forall (fun w => escaped w = false) (workers s) ->
  step env t s = Some s' ->
  Forall (fun w => escaped w = false) (workers s').
Proof.
  intros Hf Hs. destruct t as [|i]; simpl in Hs.
  - unfold main_step, api in Hs.
    destruct (main s) as [[|r todo]| |]; try discriminate.
    + destruct (forallb finished (workers s)); [|discriminate].
      injection Hs as <-. exact Hf.
    + destruct (raises env _ _); injection Hs as <-; simpl; [exact Hf|].
      destruct (VmDetails _); [|exact Hf].
      apply Forall_app. split; [exact Hf|]. repeat constructor.
  - destruct (workers s !! i) as [w|] eqn:Hw; [|discriminate].
    step_cases Hs; simpl; apply Forall_insert; auto.
Qed.

Lemma escaped_run (sched : list thread) (s : pool) :
  Forall (fun w => escaped w = false) (workers s) ->
  Forall (fun w => escaped w = false) (workers (run env sched s)).
Proof.
  revert s. induction sched as [|t sched IH]; intros s Hf; simpl; [exact Hf|].
  apply IH. destruct (step env t s) as [s'|] eqn:Hs; simpl; [|exact Hf].
  eapply escaped_step; eauto.
Qed.

Lemma escaped_drain (fuel : nat) (s : pool) :
  Forall (fun w => escaped w = false) (workers s) ->
  Forall (fun w => escaped w = false) (workers (drain env fuel s)).
Proof.
  revert s. induction fuel as [|fuel IH]; intros s Hf; simpl; [exact Hf|].
  destruct (pick s) as [t|]; [|exact Hf].
  destruct (step env t s) as [s'|] eqn:Hs; [|exact Hf].
  apply IH. eapply escaped_step; eauto.
Qed.

Lemma collect_returns (ws : list worker) (acc : list string) :
  Forall (fun w => escaped w = false) ws -> exists names, collect ws acc = Return names.
Proof.
  intros Hf. revert acc. induction Hf as [|w ws Hw _ IH]; intros acc; simpl; [eauto|].
  unfold escaped in Hw.
  destruct (at_pc w) as [| | | | | | | | | | | | | | | | | | | |[[n|]|e]]; auto; discriminate.
Qed.

Lemma run_step_taken (t : thread) (sched : list thread) (s s1 : pool) :
  step env t s = Some s1 -> run env (t :: sched) s = run env sched s1.
Proof. intros H. simpl. rewrite H. reflexivity. Qed.

Lemma run_step_stuck (t : thread) (sched : list thread) (s : pool) :
  step env t s = None -> run env (t :: sched) s = run env sched s.
Proof. intros H. simpl. rewrite H. reflexivity. Qed.

Lemma moved_lookup (s : pool) (i : nat) (w : worker) (p : pc) :
  workers s !! i = Some w ->
  workers (goto i w p s) !! i = Some {| info := info w; at_pc := p |}.
Proof.
  intros Hw. unfold goto. simpl. apply list_lookup_insert_eq.
  eapply lookup_lt_Some; eauto.
Qed.

(** C8. When the call a worker is about to make (a status message or the
    power-off command) raises [e], the worker's next actions release the
    lock if it holds it, log one error entry made of the resource name and
    [str(e)], and return None; in every interleaving no worker finishes by
    raising, so collecting the results in the main thread raises nothing. *)
Theorem worker_catches_exceptions (s : pool) (i : nat) (w : worker) (c : api_call)
    (e : exn) (h0 : history) (resources : list resource) (sched : list thread) :
  workers s !! i = Some w ->
  pending_call env w = Some c ->
  raises env (hist s) c = Some e ->
  let s' := run env [Worker i; Worker i; Worker i] s in
  (workers s' !! i = Some {| info := info w; at_pc := Done (Return None) |}
   /\ hist s'
      = EvLog Error ("Error deleting or powering off deployed app " ++ Name (info w)
                       ++ " in reservation " ++ reservation_id env
                       ++ ". Error: " ++ str_exn env e)%string
          :: EvApi c :: hist s
   /\ lock s' = (if critical (at_pc w) then None else lock s))
  /\ Forall (fun w => escaped w = false) (workers (run_pool env sched h0 resources))
  /\ exists names, collect (workers (run_pool env sched h0 resources)) [] = Return names.
Proof.
  intros Hw Hc Hr s'.
  assert (He : Forall (fun w => escaped w = false)
                 (workers (run_pool env sched h0 resources))).
  { apply escaped_drain, escaped_run. constructor. }
  split; [|split; [exact He|apply collect_returns, He]].
  subst s'. unfold pending_call in Hc.
  destruct (at_pc w) eqn:Hpc; try discriminate; injection Hc as <-.
  1-3: match goal with
       | |- context [EvApi ?c] =>
           match type of Hpc with
           | _ = ?p =>
               pose (s1 := goto i w (at_release p e) (with_hist (EvApi c :: hist s) s));
               pose proof (moved_lookup _ _ _ (at_release p e) Hw
                           : workers s1 !! i = Some _) as Hw1
           end
       end;
       assert (H1 : step env (Worker i) s = Some s1)
         by (unfold step; rewrite Hw; unfold worker_step; rewrite Hpc;
             unfold call, api; rewrite Hr; reflexivity);
       cbn [at_release] in Hw1;
       match type of Hw1 with
       | _ = Some ?w1 =>
           pose (s2 := goto i w1 (Except e) (with_lock None s1));
           assert (H2 : step env (Worker i) s1 = Some s2)
             by (unfold step; rewrite Hw1; reflexivity);
           pose proof (moved_lookup _ _ _ (Except e) Hw1
                       : workers s2 !! i = Some _) as Hw2;
           match type of Hw2 with
           | _ = Some ?w2 =>
               assert (H3 : step env (Worker i) s2
                            = Some (say i w2 Error
                                      (worker_error_log env (Name (info w)) e)
                                      (Done (Return None)) s2))
                 by (unfold step; rewrite Hw2; reflexivity);
               rewrite (run_step_taken _ _ _ _ H1), (run_step_taken _ _ _ _ H2),
                 (run_step_taken _ _ _ _ H3);
               cbn [run]; unfold say;
               split; [exact (moved_lookup _ _ _ _ Hw2)|split; reflexivity]
           end
       end.
  pose (s1 := goto i w (Except e)
                (with_hist (EvApi (ExecuteResourceConnectedCommand (reservation_id env)
                                     (Name (info w)) "PowerOff" "power") :: hist s) s)).
  assert (H1 : step env (Worker i) s = Some s1)
    by (unfold step; rewrite Hw; unfold worker_step; rewrite Hpc;
        unfold call, api; rewrite Hr; reflexivity).
  pose proof (moved_lookup _ _ _ (Except e) Hw : workers s1 !! i = Some _) as Hw1.
  match type of Hw1 with
  | _ = Some ?w1 =>
      pose (s2 := say i w1 Error (worker_error_log env (Name (info w)) e)
                    (Done (Return None)) s1);
      assert (H2 : step env (Worker i) s1 = Some s2)
        by (unfold step; rewrite Hw1; reflexivity);
      pose proof (moved_lookup _ _ _ (Done (Return None)) Hw1
                  : workers s2 !! i = Some _) as Hw2
  end.
  assert (H3 : step env (Worker i) s2 = None)
    by (unfold step; rewrite Hw2; reflexivity).
  rewrite (run_step_taken _ _ _ _ H1), (run_step_taken _ _ _ _ H2),
    (run_step_stuck _ _ _ H3).
  cbn [run]. split; [exact Hw2|split; reflexivity].
Qed.

End WorkerExceptions.

(** ** Proofs: submission bookkeeping *)

Section Submission.

Variable env : Env.
Variable resources : list resource.

Hypothesis fetch_ok : forall h n, raises env h (GetResourceDetails n) = None.
Hypothesis all_vm_backed : Forall (fun r => vm_backed (details_of env r)) resources.

Lemma finished_no_step (s : pool) (i : nat) (w : worker) :
  finished w = true -> worker_step env i w s = None.
Proof. unfold finished, worker_step. destruct (at_pc w); congruence. Qed.

Lemma map_info_moved (ws : list worker) (i : nat) (w : worker) (p : pc) :
  ws !! i = Some w ->
  map info (<[i := {| info := info w; at_pc := p |}]> ws) = map info ws.
Proof.
  revert i. induction ws as [|x ws IH]; intros [|i] Hw; simpl in *; try discriminate.
  - injection Hw as ->. reflexivity.
  - f_equal. auto.
Qed.

Lemma forallb_finished_lookup (ws : list worker) (i : nat) (w : worker) :
  forallb finished ws = true -> ws !! i = Some w -> finished w = true.
Proof.
  intros Hf Hw. rewrite forallb_forall in Hf. apply Hf.
  apply list_elem_of_In. eapply list_elem_of_lookup_2; eauto.
Qed.

Lemma submitted_worker_step (s s' : pool) (i : nat) (w : worker) :
  submitted env resources s -> workers s !! i = Some w ->
  worker_step env i w s = Some s' -> submitted env resources s'.
Proof.
  intros [(done & todo & Hr & Hres & Hinfo) Hj] Hw Hs.
  destruct (worker_step_rank env s s' i w Hs) as (Hm & p & Hws & _).
  split.
  - exists done, todo. rewrite Hm, Hws, map_info_moved by exact Hw. auto.
  - rewrite Hm. intros HJ. specialize (Hj HJ).
    rewrite (finished_no_step s i w (forallb_finished_lookup _ _ _ Hj Hw)) in Hs.
    discriminate.
Qed.

Lemma submitted_main_step (s s' : pool) :
  submitted env resources s -> main_step env s = Some s' -> submitted env resources s'.
Proof.
  intros [(done & todo & Hr & Hres & Hinfo) Hj] Hs.
  unfold main_step, api in Hs.
  destruct (main s) as [[|r rest]| |] eqn:Hm; try discriminate; simpl in Hr.
  - destruct (forallb finished (workers s)) eqn:Hf; [|discriminate].
    injection Hs as <-. injection Hr as <-. split; simpl; [|auto].
    exists done, []. auto.
  - rewrite fetch_ok in Hs. injection Hs as <-. injection Hr as <-.
    assert (Hvm : vm_backed (details_of env r)).
    { rewrite Hres in all_vm_backed. apply Forall_app in all_vm_backed as [_ Hf].
      inversion Hf; auto. }
    destruct Hvm as [d Hd]. unfold details_of in Hd.
    split; simpl; [|discriminate].
    exists (done ++ [r]), rest. rewrite Hd.
    rewrite <- app_assoc. simpl. split; [reflexivity|]. split; [exact Hres|].
    rewrite !map_app, Hinfo. reflexivity.
Qed.

Lemma submitted_init (h : history) : submitted env resources (pool_init h resources).
Proof. split; simpl; [|discriminate]. exists [], resources. auto. Qed.

(** Nothing the pool does is a bulk remove call. *)
Lemma step_no_remove (s s' : pool) (t : thread) :
  step env t s = Some s' ->
  count is_remove_call (hist s') = count is_remove_call (hist s).
Proof.
  intros Hs. destruct t as [|i]; simpl in Hs.
  - unfold main_step, api in Hs.
    destruct (main s) as [[|r rest]| |]; try discriminate.
    + destruct (forallb finished (workers s)); [|discriminate].
      injection Hs as <-. reflexivity.
    + destruct (raises env _ _); injection Hs as <-; reflexivity.
  - destruct (workers s !! i) as [w|]; [|discriminate].
    step_cases Hs; reflexivity.
Qed.

(** After the join the workers are those of all the resources. *)
Lemma submitted_left_pool (s : pool) :
  submitted env resources s -> left_pool (main s) = true ->
  main s = Joined
  /\ map info (workers s) = map (details_of env) resources
  /\ forallb finished (workers s) = true.
Proof.
  intros [(done & todo & Hr & Hres & Hinfo) Hj] Hl.
  destruct (main s); simpl in *; try discriminate.
  injection Hr as <-. rewrite app_nil_r in Hres. subst done. auto.
Qed.

End Submission.

(** ** Proofs: a run in which every resource is to be deleted *)

Lemma finished_lock_free (h0 : history) (s : pool) :
  pool_inv h0 s -> forallb finished (workers s) = true -> lock s = None.
Proof.
  intros [[L1 L2] _] Hf. destruct (lock s) as [i|] eqn:Hl; [|reflexivity].
  destruct (L2 i eq_refl) as [w Hw].
  pose proof (proj2 (L1 i w Hw) eq_refl) as Hc.
  apply critical_not_finished in Hc.
  rewrite (forallb_finished_lookup _ _ _ Hf Hw) in Hc. discriminate.
Qed.

Section DeleteRun.

Variable env : Env.
Variable resources : list resource.
Variable h0 : history.

Hypothesis fetch_ok : forall h n, raises env h (GetResourceDetails n) = None.
Hypothesis write_ok :
  forall h m, raises env h (WriteMessageToReservationOutput (reservation_id env) m) = None.
Hypothesis all_delete :
  Forall (fun r => vm_backed (details_of env r) /\ wants_delete (details_of env r))
    resources.

Lemma all_delete_vm_backed : Forall (fun r => vm_backed (details_of env r)) resources.
Proof. eapply Forall_impl; [exact all_delete|]. intros r [H _]. exact H. Qed.

Lemma wants_delete_eqb (ri : resource_info) :
  wants_delete ri -> String.eqb (lower (param_or_true ri "auto_delete")) "true" = true.
Proof.
  unfold wants_delete, param_or_true.
  destruct (get_vm_custom_param ri "auto_delete"); intros H; [rewrite H|]; reflexivity.
Qed.

Lemma delete_local_mono (m m' : message_status) (w : worker) :
  (flag_delete m = true -> flag_delete m' = true) ->
  delete_local m w -> delete_local m' w.
Proof.
  intros Hm [Hw Hp]. split; [exact Hw|].
  destruct (at_pc w) as [| | | | | | | | |[e|]| | | | | | |r| | |e|[[n|]|e]]; intuition.
Qed.

Lemma delete_inv_step (s s' : pool) (t : thread) :
  delete_inv env resources h0 s -> step env t s = Some s' ->
  delete_inv env resources h0 s'.
Proof.
  intros (Hl & Hsub & Hrm) Hs.
  pose proof (step_no_remove env s s' t Hs) as Hrm'.
  split; [|split; [|congruence]].
  - destruct t as [|i]; simpl in Hs.
    + destruct Hsub as [(done & todo & Hr & Hres & _) _].
      unfold main_step, api in Hs.
      destruct (main s) as [[|r rest]| |]; try discriminate.
      * destruct (forallb finished (workers s)); [|discriminate].
        injection Hs as <-. exact Hl.
      * rewrite fetch_ok in Hs. injection Hs as <-. simpl.
        destruct (VmDetails _); [|exact Hl].
        apply Forall_app. split; [exact Hl|]. constructor; [|constructor].
        injection Hr as <-. rewrite Hres in all_delete.
        apply Forall_app in all_delete as [_ Hf]. inversion Hf as [|? ? [_ Hd] _]; subst.
        split; [exact Hd|exact I].
    + destruct (workers s !! i) as [w|] eqn:Hw; [|discriminate].
      pose proof (Forall_lookup_1 _ _ _ _ Hl Hw) as [Hwd Hp].
      pose proof (wants_delete_eqb _ Hwd) as Hb.
      step_cases Hs; simpl.
      all: try (exfalso; exact Hp).
      all: try congruence.
      all: try match goal with
               | H : raises _ _ _ = Some _ |- _ => rewrite write_ok in H; discriminate
               end.
      all: apply Forall_insert;
        [ eapply Forall_impl; [exact Hl|]; intros x; apply delete_local_mono; simpl; auto
        | split; [exact Hwd|simpl; auto] ].
      all: try match goal with
               | H : negb _ = false |- _ => apply negb_false_iff in H; exact H
               end.
  - destruct t as [|i]; simpl in Hs.
    + eapply submitted_main_step; eauto using all_delete_vm_backed.
    + destruct (workers s !! i) as [w|] eqn:Hw; [|discriminate].
      eapply submitted_worker_step; eauto.
Qed.

Lemma delete_inv_init : delete_inv env resources h0 (pool_init h0 resources).
Proof. split; [constructor|]. split; [apply submitted_init|reflexivity]. Qed.

Lemma delete_inv_run (sched : list thread) (s : pool) :
  delete_inv env resources h0 s -> delete_inv env resources h0 (run env sched s).
Proof.
  revert s. induction sched as [|t sched IH]; intros s Hi; simpl; [exact Hi|].
  apply IH. destruct (step env t s) as [s'|] eqn:Hs; simpl; [|exact Hi].
  eapply delete_inv_step; eauto.
Qed.

Lemma delete_inv_drain (fuel : nat) (s : pool) :
  delete_inv env resources h0 s -> delete_inv env resources h0 (drain env fuel s).
Proof.
  revert s. induction fuel as [|fuel IH]; intros s Hi; simpl; [exact Hi|].
  destruct (pick s) as [t|]; [|exact Hi].
  destruct (step env t s) as [s'|] eqn:Hs; [|exact Hi].
  apply IH. eapply delete_inv_step; eauto.
Qed.

Lemma collect_all_deleted (m : message_status) (ws : list worker) (acc : list string) :
  Forall (delete_local m) ws -> forallb finished ws = true ->
  collect ws acc = Return (acc ++ map Name (map info ws)).
Proof.
  intros Hl. revert acc. induction Hl as [|w ws [_ Hw] _ IH]; intros acc Hf; simpl in *.
  - rewrite app_nil_r. reflexivity.
  - apply andb_true_iff in Hf as [Hfw Hf]. unfold finished in Hfw.
    destruct (at_pc w) as [| | | | | | | | | | | | | | | | | | | |[[n|]|e]];
      try discriminate; try contradiction.
    destruct Hw as [-> _]. rewrite IH by exact Hf. rewrite <- app_assoc. reflexivity.
Qed.


(** C6, as the code has it.  When the details of every resource created in
    the reservation are fetched without error, every one of the N >= 1
    resources is VM-backed with auto_delete absent or "true" up to case,
    and no write to the reservation output raises, then in every
    interleaving the workers write exactly one deleted-class message, and
    the bulk remove call is issued exactly once, after the pool, with the
    names of all N resources in submission order. *)
Theorem all_deleted_run (sched : list thread) (rd : reservation_details) :
  get_resources_created_in_res env rd (reservation_id env) = resources ->
  resources <> [] ->
  exists added post,
    snd (_power_off_and_delete_all_vm_resources env sched rd h0)
    = post ++ EvApi (RemoveResourcesFromReservation (reservation_id env)
                       (map (fun r => Name (details_of env r)) resources))
           :: added ++ h0
    /\ count deleted_class added = 1
    /\ count is_remove_call added = 0
    /\ count is_remove_call post = 0.
Proof.
  intros Hres Hne.
  unfold _power_off_and_delete_all_vm_resources. rewrite Hres.
  set (s := run_pool env sched h0 resources).
  assert (Hd : delete_inv env resources h0 s)
    by apply delete_inv_drain, delete_inv_run, delete_inv_init.
  pose proof (run_pool_inv env h0 sched resources) as Hp. fold s in Hp.
  pose proof (run_pool_leaves_pool env h0 sched resources) as Hl. fold s in Hl.
  destruct Hd as (Hloc & Hsub & Hrm).
  destruct (submitted_left_pool env resources s Hsub Hl) as (Hm & Hinfo & Hfin).
  rewrite Hm, (collect_all_deleted _ _ _ Hloc Hfin). simpl.
  rewrite Hinfo, map_map.
  pose proof (finished_lock_free h0 s Hp Hfin) as Hlock.
  destruct Hp as [_ (added & Hh & Hc & _)].
  unfold holder_pc in Hc. rewrite Hlock in Hc. destruct Hc as (_ & Hnd & _).
  assert (Hflag : flag_delete (status s) = true).
  { destruct (workers s) as [|w ws] eqn:Hws.
    - destruct resources; [congruence|discriminate].
    - inversion Hloc as [|? ? [_ Hw] _]; subst. simpl in Hfin.
      apply andb_true_iff in Hfin as [Hfw _]. unfold finished in Hfw.
      destruct (at_pc w) as [| | | | | | | | | | | | | | | | | | | |[[n|]|e]];
        try discriminate; try contradiction.
      apply Hw. }
  rewrite Hflag in Hnd.
  assert (Hra : count is_remove_call added = 0).
  { rewrite Hh, count_app in Hrm. lia. }
  unfold remove_resources.
  destruct (map (fun r => Name (details_of env r)) resources) as [|n names] eqn:Hn.
  { destruct resources; [congruence|discriminate]. }
  unfold try_except, api. rewrite Hh.
  destruct (raises env (added ++ h0) _) as [[code m|m]|]; simpl.
  - destruct (pyval_eqb code REMOVE_DEPLOYED_RESOURCE_ERROR).
    + unfold bind, logger, write_message, api. rewrite write_ok. simpl.
      exists added. eexists [_; _]. simpl. split; [reflexivity|]. auto.
    + exists added, []. simpl. auto.
  - exists added, []. simpl. auto.
  - exists added, []. simpl. auto.
Qed.

End DeleteRun.

Lemma all_deleted_run_witness :
  let env := sample [] ["vm1"; "vm2"] [param "auto_delete" "True"] never_fails in
  exists added post,
    snd (_power_off_and_delete_all_vm_resources env
           [MainThread; Worker 0; MainThread; Worker 1; Worker 1; Worker 0]
           (reservation env) [])
    = post ++ EvApi (RemoveResourcesFromReservation "r1" ["vm1"; "vm2"]) :: added ++ []
    /\ count deleted_class added = 1
    /\ count is_remove_call added = 0
    /\ count is_remove_call post = 0.
Proof.
  apply (all_deleted_run
           (sample [] ["vm1"; "vm2"] [param "auto_delete" "True"] never_fails)
           [{| ResourceName := "vm1" |}; {| ResourceName := "vm2" |}] []).
  - reflexivity.
  - reflexivity.
  - repeat constructor; eexists; reflexivity.
  - reflexivity.
  - discriminate.
Defined.

(** C6 as stated fails: one resource to delete, and the status message of
    its worker raises; the worker returns None and no bulk remove call is
    made. *)
Lemma failed_message_skips_removal :
  let env := sample [] ["vm1"] [] (message_fails msg_both) in
  wants_delete (details_of env {| ResourceName := "vm1" |})
  /\ _power_off_and_delete_all_vm_resources env [] (reservation env) []
     = (Return tt,
        [EvLog Error
           "Error deleting or powering off deployed app vm1 in reservation r1. Error: output unavailable";
         EvApi (WriteMessageToReservationOutput "r1"
                  "Apps are being powered off and deleted...");
         EvLog Info "Executing 'Delete' on deployed app vm1 in reservation r1";
         EvApi (GetResourceDetails "vm1")])
  /\ count is_remove_call
       (snd (_power_off_and_delete_all_vm_resources env [] (reservation env) [])) = 0.
Proof. repeat split. Qed.

(** ** Proofs: a run in which every resource is to be powered off *)

Section PowerOffRun.

Variable env : Env.
Variable resources : list resource.
Variable h0 : history.

Hypothesis fetch_ok : forall h n, raises env h (GetResourceDetails n) = None.
Hypothesis write_ok :
  forall h m, raises env h (WriteMessageToReservationOutput (reservation_id env) m) = None.
Hypothesis all_power_off :
  Forall (fun r => vm_backed (details_of env r) /\ wants_power_off (details_of env r))
    resources.

Lemma all_power_off_vm_backed : Forall (fun r => vm_backed (details_of env r)) resources.
Proof. eapply Forall_impl; [exact all_power_off|]. intros r [H _]. exact H. Qed.

Lemma wants_power_off_eqb (ri : resource_info) :
  wants_power_off ri ->
  String.eqb (lower (param_or_true ri "auto_delete")) "true" = false
  /\ String.eqb (lower (param_or_true ri "auto_power_off")) "true" = true.
Proof.
  unfold wants_power_off, param_or_true. intros [(p & -> & ->) H]. split; [reflexivity|].
  destruct (get_vm_custom_param ri "auto_power_off"); [rewrite H|]; reflexivity.
Qed.

Lemma power_local_mono (m m' : message_status) (w : worker) :
  (flag_power_off m = true -> flag_power_off m' = true) ->
  power_local m w -> power_local m' w.
Proof.
  intros Hm [Hw Hp]. split; [exact Hw|].
  destruct (at_pc w) as [| | | | | | | | |r| | | | | | |[e|]| | |e|[[n|]|e]]; intuition.
Qed.

Lemma power_inv_step (P : string -> bool) (s s' : pool) (t : thread) :
  power_inv env resources h0 P s -> step env t s = Some s' ->
  power_inv env resources h0 P s'.
Proof.
  intros (Hl & Hsub & Hrm & Hboth & Hcmd) Hs.
  pose proof (step_no_remove env s s' t Hs) as Hrm'.
  split; [|split; [|split; [congruence|]]].
  - destruct t as [|i]; simpl in Hs.
    + destruct Hsub as [(done & todo & Hr & Hres & _) _].
      unfold main_step, api in Hs.
      destruct (main s) as [[|r rest]| |]; try discriminate.
      * destruct (forallb finished (workers s)); [|discriminate].
        injection Hs as <-. exact Hl.
      * rewrite fetch_ok in Hs. injection Hs as <-. simpl.
        destruct (VmDetails _); [|exact Hl].
        apply Forall_app. split; [exact Hl|]. constructor; [|constructor].
        injection Hr as <-. rewrite Hres in all_power_off.
        apply Forall_app in all_power_off as [_ Hf].
        inversion Hf as [|? ? [_ Hd] _]; subst.
        split; [exact Hd|exact I].
    + destruct (workers s !! i) as [w|] eqn:Hw; [|discriminate].
      pose proof (Forall_lookup_1 _ _ _ _ Hl Hw) as [Hwd Hp].
      pose proof (wants_power_off_eqb _ Hwd) as [Hb1 Hb2].
      step_cases Hs; simpl.
      all: try (exfalso; exact Hp).
      all: try congruence.
      all: try match goal with
               | H : raises _ _ (WriteMessageToReservationOutput _ _) = Some _ |- _ =>
                   rewrite write_ok in H; discriminate
               end.
      all: apply Forall_insert;
        [ eapply Forall_impl; [exact Hl|]; intros x; apply power_local_mono; simpl; auto
        | split; [exact Hwd|simpl; auto] ].
      all: try match goal with
               | H : negb _ = false |- _ => apply negb_false_iff in H; exact H
               end.
  - destruct t as [|i]; simpl in Hs.
    + eapply submitted_main_step; eauto using all_power_off_vm_backed.
    + destruct (workers s !! i) as [w|] eqn:Hw; [|discriminate].
      eapply submitted_worker_step; eauto.
  - destruct t as [|i]; simpl in Hs.
    + unfold main_step, api in Hs.
      destruct (main s) as [[|r rest]| |]; try discriminate.
      * destruct (forallb finished (workers s)); [|discriminate].
        injection Hs as <-. auto.
      * rewrite fetch_ok in Hs. injection Hs as <-. simpl.
        split; [exact Hboth|]. rewrite Hcmd.
        destruct (VmDetails _); [|reflexivity].
        rewrite sum_list_with_app. simpl. rewrite andb_false_r. simpl. lia.
    + destruct (workers s !! i) as [w|] eqn:Hw; [|discriminate].
      pose proof (Forall_lookup_1 _ _ _ _ Hl Hw) as [Hwd Hp].
      pose proof (fun p =>
                    sum_list_moved
                      (fun w => Nat.b2n (P (Name (info w)) && commanded (at_pc w)))
                      (workers s) i w {| info := info w; at_pc := p |} Hw) as Hsum.
      pose proof (wants_power_off_eqb _ Hwd) as [Hb1 Hb2].
      step_cases Hs; simpl.
      all: try (exfalso; exact Hp).
      all: try congruence.
      all: try match goal with
               | H : raises _ _ (WriteMessageToReservationOutput _ _) = Some _ |- _ =>
                   rewrite write_ok in H; discriminate
               end.
      all: match goal with
           | |- context [<[_ := {| info := _; at_pc := ?p |}]> _] =>
               specialize (Hsum p)
           end.
      all: match goal with
           | H : at_pc _ = _ |- _ => simpl in Hsum; rewrite H in Hsum
           end.
      all: match type of Hsum with
           | context [Nat.b2n (?b && _)] => destruct b
           end; simpl in *; split; lia.
Qed.

Lemma power_inv_init (P : string -> bool) :
  power_inv env resources h0 P (pool_init h0 resources).
Proof.
  split; [constructor|]. split; [apply submitted_init|]. simpl. repeat split; lia.
Qed.

Lemma power_inv_run (P : string -> bool) (sched : list thread) (s : pool) :
  power_inv env resources h0 P s -> power_inv env resources h0 P (run env sched s).
Proof.
  revert s. induction sched as [|t sched IH]; intros s Hi; simpl; [exact Hi|].
  apply IH. destruct (step env t s) as [s'|] eqn:Hs; simpl; [|exact Hi].
  eapply power_inv_step; eauto.
Qed.

Lemma power_inv_drain (P : string -> bool) (fuel : nat) (s : pool) :
  power_inv env resources h0 P s -> power_inv env resources h0 P (drain env fuel s).
Proof.
  revert s. induction fuel as [|fuel IH]; intros s Hi; simpl; [exact Hi|].
  destruct (pick s) as [t|]; [|exact Hi].
  destruct (step env t s) as [s'|] eqn:Hs; [|exact Hi].
  apply IH. eapply power_inv_step; eauto.
Qed.


Lemma collect_all_none (m : message_status) (ws : list worker) (acc : list string) :
  Forall (power_local m) ws -> forallb finished ws = true -> collect ws acc = Return acc.
Proof.
  intros Hl. revert acc. induction Hl as [|w ws [_ Hw] _ IH]; intros acc Hf; simpl in *.
  - reflexivity.
  - apply andb_true_iff in Hf as [Hfw Hf]. unfold finished in Hfw.
    destruct (at_pc w) as [| | | | | | | | | | | | | | | | | | | |[[n|]|e]];
      try discriminate; try contradiction.
    apply IH, Hf.
Qed.

Lemma commands_of_finished (P : string -> bool) (ws : list worker) :
  forallb finished ws = true ->
  sum_list_with (fun w => Nat.b2n (P (Name (info w)) && commanded (at_pc w))) ws
  = sum_list_with (fun ri => Nat.b2n (P (Name ri))) (map info ws).
Proof.
  induction ws as [|w ws IH]; intros Hf; simpl in *; [reflexivity|].
  apply andb_true_iff in Hf as [Hfw Hf]. rewrite IH by exact Hf.
  unfold finished in Hfw. destruct (at_pc w); try discriminate.
  simpl. rewrite andb_true_r. reflexivity.
Qed.

Lemma sum_list_with_map {A B} (f : B -> nat) (g : A -> B) (l : list A) :
  sum_list_with f (map g l) = sum_list_with (fun x => f (g x)) l.
Proof. induction l as [|x l IH]; simpl; [reflexivity|]. rewrite IH. reflexivity. Qed.

Lemma sum_list_with_ones {A} (l : list A) : sum_list_with (fun _ => 1) l = length l.
Proof. induction l as [|x l IH]; simpl; [reflexivity|]. rewrite IH. reflexivity. Qed.

(** C7, as the code has it.  When the details of every resource created in
    the reservation are fetched without error, every one of the N >= 1
    resources is VM-backed with auto_delete "false" and auto_power_off
    absent or "true" up to case, and no write to the reservation output
    raises, then in every interleaving the phase returns normally, having
    written 'Apps are powering off...' exactly once and issued exactly N
    power-off commands, one for each resource, and no bulk remove call. *)
Theorem all_powered_off_run (sched : list thread) (rd : reservation_details) :
  get_resources_created_in_res env rd (reservation_id env) = resources ->
  resources <> [] ->
  exists added,
    _power_off_and_delete_all_vm_resources env sched rd h0 = (Return tt, added ++ h0)
    /\ count (writes_message msg_powering_off) added = 1
    /\ count (is_power_off_for (fun _ => true)) added = length resources
    /\ (forall P, count (is_power_off_for P) added
                  = sum_list_with (fun r => Nat.b2n (P (Name (details_of env r))))
                      resources)
    /\ count is_remove_call added = 0.
Proof.
  intros Hres Hne.
  unfold _power_off_and_delete_all_vm_resources. rewrite Hres.
  set (s := run_pool env sched h0 resources).
  assert (Hd : forall P, power_inv env resources h0 P s)
    by (intros P; apply power_inv_drain, power_inv_run, power_inv_init).
  pose proof (run_pool_inv env h0 sched resources) as Hp. fold s in Hp.
  pose proof (run_pool_leaves_pool env h0 sched resources) as Hl. fold s in Hl.
  destruct (Hd (fun _ => true)) as (Hloc & Hsub & Hrm & Hboth & _).
  destruct (submitted_left_pool env resources s Hsub Hl) as (Hm & Hinfo & Hfin).
  rewrite Hm, (collect_all_none _ _ _ Hloc Hfin). simpl.
  pose proof (finished_lock_free h0 s Hp Hfin) as Hlock.
  destruct Hp as [_ (added & Hh & Hc & _)].
  unfold holder_pc in Hc. rewrite Hlock in Hc. destruct Hc as (Hnp & _ & _).
  assert (Hflag : flag_power_off (status s) = true).
  { destruct (workers s) as [|w ws] eqn:Hws.
    - destruct resources; [congruence|discriminate].
    - inversion Hloc as [|? ? [_ Hw] _]; subst. simpl in Hfin.
      apply andb_true_iff in Hfin as [Hfw _]. unfold finished in Hfw.
      destruct (at_pc w) as [| | | | | | | | | | | | | | | | | | | |[[n|]|e]];
        try discriminate; try contradiction.
      exact Hw. }
  rewrite Hflag in Hnp. simpl in Hnp.
  assert (Hcount : forall P, count (is_power_off_for P) added
                     = sum_list_with (fun r => Nat.b2n (P (Name (details_of env r))))
                         resources).
  { intros P. destruct (Hd P) as (_ & _ & _ & _ & Hcmd).
    rewrite Hh, count_app, commands_of_finished, Hinfo, sum_list_with_map in Hcmd
      by exact Hfin.
    lia. }
  exists added. unfold ret. rewrite Hh. split; [reflexivity|].
  rewrite Hh, !count_app in *. rewrite power_off_class_split in Hnp.
  split; [lia|]. split; [|split; [exact Hcount|lia]].
  rewrite Hcount. simpl. apply sum_list_with_ones.
Qed.

End PowerOffRun.

Lemma all_powered_off_run_witness :
  let env := sample [] ["vm1"; "vm2"] [param "auto_delete" "false"] never_fails in
  exists added,
    _power_off_and_delete_all_vm_resources env
      [MainThread; Worker 0; MainThread; Worker 1; Worker 1; Worker 0]
      (reservation env) []
    = (Return tt, added ++ [])
    /\ count (writes_message msg_powering_off) added = 1
    /\ count (is_power_off_for (fun _ => true)) added = 2
    /\ (forall P, count (is_power_off_for P) added
                  = sum_list_with (fun r => Nat.b2n (P (Name (details_of env r))))
                      [{| ResourceName := "vm1" |}; {| ResourceName := "vm2" |}])
    /\ count is_remove_call added = 0.
Proof.
  apply (all_powered_off_run
           (sample [] ["vm1"; "vm2"] [param "auto_delete" "false"] never_fails)
           [{| ResourceName := "vm1" |}; {| ResourceName := "vm2" |}] []).
  - reflexivity.
  - reflexivity.
  - constructor; [|constructor; [|constructor]].
    all: split; [eexists; reflexivity|split; [eexists; split; reflexivity|exact I]].
  - reflexivity.
  - discriminate.
Defined.

(** C7 as stated fails: one resource to power off, and the status message
    of its worker raises; the worker returns None without issuing the
    power-off command. *)
Lemma failed_message_skips_power_off :
  let env := sample [] ["vm1"] [param "auto_delete" "false"]
               (message_fails msg_powering_off) in
  wants_power_off (details_of env {| ResourceName := "vm1" |})
  /\ _power_off_and_delete_all_vm_resources env [] (reservation env) []
     = (Return tt,
        [EvLog Error
           "Error deleting or powering off deployed app vm1 in reservation r1. Error: output unavailable";
         EvApi (WriteMessageToReservationOutput "r1" "Apps are powering off...");
         EvLog Info "Executing 'Power Off' on deployed app vm1 in reservation r1";
         EvApi (GetResourceDetails "vm1")])
  /\ count (is_power_off_for (fun _ => true))
       (snd (_power_off_and_delete_all_vm_resources env [] (reservation env) [])) = 0.
Proof.
  split; [|split; reflexivity].
  split; [eexists; split; reflexivity|exact I].
Qed.

(** ** Proofs: which failures [execute] survives *)

Section Execute.

Variable env : Env.

Lemma main_not_failed_step (s s' : pool) (t : thread) :
  (forall h n, raises env h (GetResourceDetails n) = None) ->
  remaining (main s) <> None -> step env t s = Some s' -> remaining (main s') <> None.
Proof.
  intros Hf Hm Hs. destruct t as [|i]; simpl in Hs.
  - unfold main_step, api in Hs.
    destruct (main s) as [[|r rest]| |]; try discriminate.
    + destruct (forallb finished (workers s)); [|discriminate].
      injection Hs as <-. discriminate.
    + rewrite Hf in Hs. injection Hs as <-. discriminate.
  - destruct (workers s !! i) as [w|]; [|discriminate].
    destruct (worker_step_rank env s s' i w Hs) as [-> _]. exact Hm.
Qed.

Lemma main_not_failed (sched : list thread) (h0 : history) (resources : list resource) :
  (forall h n, raises env h (GetResourceDetails n) = None) ->
  remaining (main (run_pool env sched h0 resources)) <> None.
Proof.
  intros Hf. unfold run_pool.
  assert (Hrun : forall sc s, remaining (main s) <> None ->
                   remaining (main (run env sc s)) <> None).
  { induction sc as [|t sc IH]; intros s Hs; simpl; [exact Hs|].
    apply IH. destruct (step env t s) as [s'|] eqn:E; simpl; [|exact Hs].
    eapply main_not_failed_step; eauto. }
  assert (Hdrain : forall n s, remaining (main s) <> None ->
                     remaining (main (drain env n s)) <> None).
  { induction n as [|n IH]; intros s Hs; simpl; [exact Hs|].
    destruct (pick s) as [t|]; [|exact Hs].
    destruct (step env t s) as [s'|] eqn:E; [|exact Hs].
    apply IH. eapply main_not_failed_step; eauto. }
  apply Hdrain, Hrun. discriminate.
Qed.

(** A status message or power-off command of a worker is never taken for
    a call outside a try block: when a worker runs, the last event is one
    of the pool phase, not the error entry of a handler of the main
    thread. *)
Lemma worker_calls_inside_try (h0 : history) (resources : list resource)
    (sched : list thread) (i : nat) (w : worker) (c : api_call) (e : exn) :
  let s := run env sched (pool_init h0 resources) in
  workers s !! i = Some w ->
  pending_call env w = Some c ->
  outside_try (hist s) c e = false.
Proof.
  intros s Hw Hc.
  assert (Hstep : forall s0 s1 t,
            (workers s0 = [] \/ in_handler (hist s0) = false) ->
            step env t s0 = Some s1 ->
            workers s1 = [] \/ in_handler (hist s1) = false).
  { intros s0 s1 t H0 Hs. destruct t as [|j]; simpl in Hs.
    - unfold main_step, api in Hs.
      destruct (main s0) as [[|r rest]| |]; try discriminate.
      + destruct (forallb finished (workers s0)); [|discriminate].
        injection Hs as <-. exact H0.
      + destruct (raises env _ _); injection Hs as <-; right; reflexivity.
    - destruct (workers s0 !! j) as [wj|] eqn:Hj; [|discriminate].
      destruct H0 as [H0|H0]; [rewrite H0 in Hj; discriminate|].
      right. step_cases Hs; simpl; first [exact H0|reflexivity]. }
  assert (Hrun : forall sc s0,
            (workers s0 = [] \/ in_handler (hist s0) = false) ->
            workers (run env sc s0) = [] \/ in_handler (hist (run env sc s0)) = false).
  { induction sc as [|t sc IH]; intros s0 H0; simpl; [exact H0|].
    apply IH. destruct (step env t s0) as [s1|] eqn:Hs; simpl; [|exact H0].
    eapply Hstep; eauto. }
  destruct (Hrun sched (pool_init h0 resources) (or_introl eq_refl)) as [Hn|Hn];
    fold s in Hn; [rewrite Hn in Hw; discriminate|].
  unfold pending_call in Hc.
  destruct (at_pc w); try discriminate; injection Hc as <-; simpl;
    try reflexivity; exact Hn.
Qed.

Lemma handler_log_disconnect (e : exn) : handler_log (disconnect_error_log env e) = true.
Proof. reflexivity. Qed.

Lemma handler_log_remove (m : string) : handler_log (remove_error_log m) = true.
Proof. reflexivity. Qed.

Section NoUncaughtFailure.

Hypothesis only_caught :
  forall h c e, raises env h c = Some e -> outside_try h c e = true ->
                c = CleanupSandboxConnectivity (reservation_id env).

Lemma uncaught_returns (c : api_call) (h : history) :
  (forall e, outside_try h c e = true) ->
  c <> CleanupSandboxConnectivity (reservation_id env) ->
  api env c h = (Return tt, EvApi c :: h).
Proof.
  intros Ho Hc. unfold api. destruct (raises env h c) as [e|] eqn:E; [|reflexivity].
  destruct (Hc (only_caught h c e E (Ho e))).
Qed.

Lemma report_returns (l m : string) (h : history) :
  handler_log l = true ->
  api env (WriteMessageToReservationOutput (reservation_id env) m) (EvLog Error l :: h)
  = (Return tt,
     EvApi (WriteMessageToReservationOutput (reservation_id env) m) :: EvLog Error l :: h).
Proof.
  intros Hl. apply uncaught_returns; [|discriminate].
  intros e. simpl. rewrite Hl. apply orb_true_r.
Qed.

Lemma disconnect_returns (rd : reservation_details) (h : history) :
  fst (_disconnect_all_routes_in_reservation env rd h) = Return tt.
Proof.
  unfold _disconnect_all_routes_in_reservation.
  destruct (collect_endpoints (Connectors rd) []) as [|x l]; [reflexivity|].
  assert (Hh : forall e h', fst (disconnect_handler env e h') = Return tt).
  { intros e h'. unfold disconnect_handler, bind, logger, write_message.
    destruct e as [code m|m].
    - destruct (negb (pyval_eqb code (PyStr "123"))); [|reflexivity].
      rewrite report_returns by apply handler_log_disconnect. reflexivity.
    - rewrite report_returns by apply handler_log_disconnect. reflexivity. }
  unfold try_except, bind, logger, write_message. unfold api.
  destruct (raises env _ (WriteMessageToReservationOutput _ _)) as [e|]; [apply Hh|].
  destruct (raises env _ (DisconnectRoutesInReservation _ _)) as [e|]; [apply Hh|].
  reflexivity.
Qed.

Lemma pool_phase_returns (sched : list thread) (rd : reservation_details) (h : history) :
  fst (_power_off_and_delete_all_vm_resources env sched rd h) = Return tt.
Proof.
  unfold _power_off_and_delete_all_vm_resources.
  set (s := run_pool env sched h _).
  assert (Hm : remaining (main s) <> None).
  { apply main_not_failed. intros h1 n.
    destruct (raises env h1 (GetResourceDetails n)) as [e|] eqn:E; [|reflexivity].
    discriminate (only_caught _ _ _ E eq_refl). }
  assert (He : Forall (fun w => escaped w = false) (workers s)).
  { apply escaped_drain, escaped_run. constructor. }
  destruct (collect_returns _ [] He) as [names Hc]. rewrite Hc.
  assert (Hr : fst (remove_resources env names (hist s)) = Return tt).
  { unfold remove_resources. destruct names as [|n names]; [reflexivity|].
    unfold try_except, api.
    destruct (raises env (hist s) _) as [e|] eqn:E; [|reflexivity].
    destruct e as [code m|m]; [|discriminate (only_caught _ _ _ E eq_refl)].
    unfold remove_handler.
    destruct (pyval_eqb code REMOVE_DEPLOYED_RESOURCE_ERROR); [|reflexivity].
    unfold bind, logger, write_message.
    rewrite report_returns by apply handler_log_remove. reflexivity. }
  destruct (main s); [exact Hr|exact Hr|]. simpl in Hm. congruence.
Qed.

Lemma execute_pinned (sched : list thread) (h : history) :
  execute env sched h
  = match raises env (before_cleanup env sched h)
            (CleanupSandboxConnectivity (reservation_id env)) with
    | None => (Return tt, completion env (before_cleanup env sched h))
    | Some e =>
        (Raise e,
         EvApi (CleanupSandboxConnectivity (reservation_id env))
           :: before_cleanup env sched h)
    end.
Proof.
  pose proof (disconnect_returns (reservation env) (after_begin env h)) as Hd.
  pose proof (pool_phase_returns sched (reservation env) (after_disconnect env h)) as Hp.
  unfold before_cleanup, after_pool, after_disconnect in *.
  unfold execute, bind, write_message.
  rewrite (uncaught_returns (GetReservationDetails _) h) by (intros; discriminate || reflexivity).
  rewrite uncaught_returns by (intros; discriminate || reflexivity).
  fold (after_begin env h).
  destruct (_disconnect_all_routes_in_reservation env (reservation env) (after_begin env h))
    as [o1 h1]. cbn [fst snd] in *. subst o1.
  destruct (_power_off_and_delete_all_vm_resources env sched (reservation env) h1)
    as [o2 h2]. cbn [fst snd] in *. subst o2.
  unfold _cleanup_connectivity, bind, logger, write_message.
  rewrite uncaught_returns by (intros; discriminate || reflexivity).
  unfold api at 1.
  destruct (raises env _ (CleanupSandboxConnectivity _)); [reflexivity|].
  rewrite uncaught_returns by (intros; discriminate || reflexivity).
  reflexivity.
Qed.

End NoUncaughtFailure.

(** C3, as the code has it.  When no call outside a try block raises,
    except possibly the connectivity cleanup call - so that the calls that
    may fail are the 'Disconnecting all apps...' message and the bulk
    disconnect call, a worker's status message or power-off command, and
    the bulk remove call with a structured API error - every failure is
    caught: the disconnect phase returns normally, the power-off/delete
    phase runs on the history it left and returns normally, the cleanup
    phase runs on the history that phase left, and [execute] ends with the
    cleanup call, the completion log entry and the completion
    announcement.  A failure of the cleanup call is not caught: it leaves
    [execute], whose history stops at that call, with no completion entry
    and no completion announcement after it.  And whatever fails,
    [execute] returns normally only if the cleanup call was made and did
    not raise. *)
Theorem execute_failure_handling (sched : list thread) (h : history) :
  ((forall h c e, raises env h c = Some e -> outside_try h c e = true ->
                  c = CleanupSandboxConnectivity (reservation_id env)) ->
   fst (_disconnect_all_routes_in_reservation env (reservation env) (after_begin env h))
   = Return tt
   /\ fst (_power_off_and_delete_all_vm_resources env sched (reservation env)
             (after_disconnect env h))
      = Return tt
   /\ execute env sched h
      = match raises env (before_cleanup env sched h)
                (CleanupSandboxConnectivity (reservation_id env)) with
        | None => (Return tt, completion env (before_cleanup env sched h))
        | Some e =>
            (Raise e,
             EvApi (CleanupSandboxConnectivity (reservation_id env))
               :: before_cleanup env sched h)
        end)
  /\ (fst (execute env sched h) = Return tt ->
      exists h', snd (execute env sched h) = completion env h'
                 /\ raises env h' (CleanupSandboxConnectivity (reservation_id env)) = None).
Proof.
  split.
  - intros Hs. split; [apply disconnect_returns, Hs|].
    split; [apply pool_phase_returns, Hs|]. apply execute_pinned, Hs.
  - unfold execute, _cleanup_connectivity.
    unfold bind, write_message, logger, api. cbv beta iota.
    repeat match goal with
           | |- context [match raises env ?hh ?c with _ => _ end] =>
               destruct (raises env hh c) eqn:?; cbv beta iota;
               [intros; discriminate|]
           | |- context [match _disconnect_all_routes_in_reservation env ?rd ?hh
                         with _ => _ end] =>
               destruct (_disconnect_all_routes_in_reservation env rd hh)
                 as [[[]|?] ?]; cbv beta iota; [|intros; discriminate]
           | |- context [match _power_off_and_delete_all_vm_resources env ?sc ?rd ?hh
                         with _ => _ end] =>
               destruct (_power_off_and_delete_all_vm_resources env sc rd hh)
                 as [[[]|?] ?]; cbv beta iota; [|intros; discriminate]
           end.
    intros _. eexists. split; [reflexivity|assumption].
Qed.

End Execute.

Lemma execute_failure_handling_witness :
  let env := sample [link "Connected"] ["vm1"] [param "auto_delete" "false"]
               disconnect_and_commands_fail in
  fst (_disconnect_all_routes_in_reservation env (reservation env) (after_begin env []))
  = Return tt
  /\ fst (_power_off_and_delete_all_vm_resources env [] (reservation env)
            (after_disconnect env []))
     = Return tt
  /\ execute env [] []
     = (Return tt,
        [EvApi (WriteMessageToReservationOutput "r1"
                  "Reservation teardown finished successfully");
         EvLog Info "Teardown for reservation r1 completed";
         EvApi (CleanupSandboxConnectivity "r1");
         EvApi (WriteMessageToReservationOutput "r1" "Cleaning-up connectivity");
         EvLog Info "Cleaning-up connectivity for reservation r1";
         EvLog Error
           "Error deleting or powering off deployed app vm1 in reservation r1. Error: unreachable";
         EvApi (ExecuteResourceConnectedCommand "r1" "vm1" "PowerOff" "power");
         EvApi (WriteMessageToReservationOutput "r1" "Apps are powering off...");
         EvLog Info "Executing 'Power Off' on deployed app vm1 in reservation r1";
         EvApi (GetResourceDetails "vm1");
         EvApi (WriteMessageToReservationOutput "r1" "Error disconnecting apps. Error: bad");
         EvLog Error "Error disconnecting all routes in reservation r1. Error: bad";
         EvApi (DisconnectRoutesInReservation "r1" ["b"; "a"]);
         EvApi (WriteMessageToReservationOutput "r1" "Disconnecting all apps...");
         EvLog Info "Executing disconnect routes for reservation r1";
         EvApi (WriteMessageToReservationOutput "r1" "Beginning reservation teardown");
         EvApi (GetReservationDetails "r1")]).
Proof.
  apply (proj1 (execute_failure_handling
                  (sample [link "Connected"] ["vm1"] [param "auto_delete" "false"]
                     disconnect_and_commands_fail) [] [])).
  intros h c e. destruct c; simpl; intros H; try discriminate.
Defined.

Lemma worker_catches_exceptions_witness :
  let env := sample [] ["vm1"] [] (message_fails msg_both) in
  let s := run env [MainThread; Worker 0; Worker 0; Worker 0; Worker 0; Worker 0;
                    Worker 0; Worker 0]
             (pool_init [] [{| ResourceName := "vm1" |}]) in
  let s' := run env [Worker 0; Worker 0; Worker 0] s in
  (workers s' !! 0 = Some {| info := vm "vm1" []; at_pc := Done (Return None) |}
   /\ hist s'
      = EvLog Error
          "Error deleting or powering off deployed app vm1 in reservation r1. Error: output unavailable"
          :: EvApi (WriteMessageToReservationOutput "r1"
                      "Apps are being powered off and deleted...")
          :: hist s
   /\ lock s' = None)
  /\ Forall (fun w => escaped w = false) (workers (run_pool env [] [] []))
  /\ exists names, collect (workers (run_pool env [] [] [])) [] = Return names.
Proof.
  exact (worker_catches_exceptions (sample [] ["vm1"] [] (message_fails msg_both))
           (run (sample [] ["vm1"] [] (message_fails msg_both))
              [MainThread; Worker 0; Worker 0; Worker 0; Worker 0; Worker 0;
               Worker 0; Worker 0]
              (pool_init [] [{| ResourceName := "vm1" |}]))
           0 {| info := vm "vm1" []; at_pc := DelWriteBoth |}
           (WriteMessageToReservationOutput "r1" msg_both)
           (Exception "output unavailable") [] [] []
           eq_refl eq_refl eq_refl).
Defined.

(** ** Further properties of the sequential phases *)

Section MoreSequential.

Variable env : Env.

Lemma collect_endpoints_acc (cs : list connector) (acc : list string) :
  collect_endpoints cs acc = acc ++ collect_endpoints cs [].
Proof.
  revert acc. induction cs as [|c cs IH]; intros acc; simpl.
  - rewrite app_nil_r. reflexivity.
  - destruct (connected_state (State c) && truthy (Target c) && truthy (Source c));
      [|apply IH].
    destruct (Target c) as [t|], (Source c) as [s|]; try apply IH.
    rewrite IH, (IH [t; s]), <- app_assoc. reflexivity.
Qed.

(** X1. The endpoints handed to the bulk disconnect call are two for each
    connector that is Connected or PartiallyConnected and has both a
    target and a source, and every one of them is the target or the source
    of such a connector. *)
Theorem endpoints_of_routed_connectors (cs : list connector) :
  length (collect_endpoints cs []) = 2 * length (List.filter routed cs)
  /\ forall x, In x (collect_endpoints cs []) ->
       exists c, In c cs /\ routed c = true
                 /\ (Target c = Some x \/ Source c = Some x).
Proof.
  induction cs as [|c cs [IHl IHm]]; simpl.
  - split; [reflexivity|]. intros x [].
  - fold (routed c). destruct (routed c) eqn:Hr.
    + assert (Hts : exists t s, Target c = Some t /\ Source c = Some s).
      { unfold routed in Hr. apply andb_true_iff in Hr as [Hr Hs].
        apply andb_true_iff in Hr as [_ Ht].
        destruct (Target c) as [t|], (Source c) as [s|]; try discriminate. eauto. }
      destruct Hts as (t & s & Ht & Hs). rewrite Ht, Hs.
      rewrite collect_endpoints_acc. split.
      * simpl. rewrite IHl. lia.
      * intros x Hx. simpl in Hx. destruct Hx as [<-|[<-|Hx]].
        -- exists c. auto.
        -- exists c. auto.
        -- destruct (IHm x Hx) as (c' & Hc & H). exists c'. auto.
    + split; [exact IHl|]. intros x Hx.
      destruct (IHm x Hx) as (c' & Hc & H). exists c'. auto.
Qed.

(** X2. The disconnect phase makes at most one bulk disconnect call: one
    when there are endpoints and the 'Disconnecting all apps...' message
    did not raise, none otherwise. *)
Theorem disconnect_call_count (rd : reservation_details) (h : history) :
  count is_disconnect_call (snd (_disconnect_all_routes_in_reservation env rd h))
  = count is_disconnect_call h
    + match collect_endpoints (Connectors rd) [] with
      | [] => 0
      | _ :: _ =>
          match raises env
                  (EvLog Info ("Executing disconnect routes for reservation "
                                 ++ reservation_id env)%string :: h)
                  (WriteMessageToReservationOutput (reservation_id env)
                     "Disconnecting all apps...") with
          | Some _ => 0
          | None => 1
          end
      end.
Proof.
  unfold _disconnect_all_routes_in_reservation.
  destruct (collect_endpoints (Connectors rd) []) as [|x l]; [simpl; lia|].
  unfold try_except, bind, logger, write_message, api.
  assert (Hh : forall e h', count is_disconnect_call (snd (disconnect_handler env e h'))
                            = count is_disconnect_call h').
  { intros e h'. unfold disconnect_handler, bind, logger, write_message, api.
    destruct e as [code m|m].
    - destruct (negb (pyval_eqb code (PyStr "123"))); [|reflexivity].
      destruct (raises env _ _); reflexivity.
    - destruct (raises env _ _); reflexivity. }
  destruct (raises env _ (WriteMessageToReservationOutput _ _)) as [e|].
  - rewrite Hh. simpl. lia.
  - destruct (raises env _ (DisconnectRoutesInReservation _ _)) as [e|].
    + rewrite Hh. simpl. lia.
    + simpl. lia.
Qed.

(** X3. When the bulk remove call raises an exception that is not a
    structured API error, the exception leaves the phase and nothing is
    logged or written for it. *)
Theorem bulk_remove_other_exception (sched : list thread) (rd : reservation_details)
    (h : history) (names : list string) (message : string) :
  let s := run_pool env sched h
             (get_resources_created_in_res env rd (reservation_id env)) in
  let call := RemoveResourcesFromReservation (reservation_id env) names in
  main s = Joined ->
  collect (workers s) [] = Return names ->
  names <> [] ->
  raises env (hist s) call = Some (Exception message) ->
  _power_off_and_delete_all_vm_resources env sched rd h
    = (Raise (Exception message), EvApi call :: hist s).
Proof.
  intros s call Hm Hc Hne Hr.
  unfold _power_off_and_delete_all_vm_resources. fold s. rewrite Hm, Hc.
  unfold remove_resources. destruct names as [|n l]; [congruence|].
  unfold try_except, api. fold call. rewrite Hr. reflexivity.
Qed.

End MoreSequential.

Lemma bulk_remove_other_exception_witness :
  let env := sample [] ["vm1"] [] (remove_fails (Exception "timeout")) in
  _power_off_and_delete_all_vm_resources env [] (reservation env) []
  = (Raise (Exception "timeout"),
     [EvApi (RemoveResourcesFromReservation "r1" ["vm1"]);
      EvApi (WriteMessageToReservationOutput "r1" "Apps are being powered off and deleted...");
      EvLog Info "Executing 'Delete' on deployed app vm1 in reservation r1";
      EvApi (GetResourceDetails "vm1")]).
Proof.
  exact (bulk_remove_other_exception
           (sample [] ["vm1"] [] (remove_fails (Exception "timeout")))
           [] {| Connectors := []; Resources := [{| ResourceName := "vm1" |}] |} []
           ["vm1"] "timeout"
           eq_refl eq_refl ltac:(discriminate) eq_refl).
Defined.

(** ** Further properties of the pool *)

Section MorePool.

Variable env : Env.

Lemma joined_finished_step (s s' : pool) (t : thread) :
  (main s = Joined -> forallb finished (workers s) = true) ->
  step env t s = Some s' ->
  main s' = Joined -> forallb finished (workers s') = true.
Proof.
  intros Hj Hs Hm. destruct t as [|i]; simpl in Hs.
  - unfold main_step, api in Hs.
    destruct (main s) as [[|r rest]| |]; try discriminate.
    + destruct (forallb finished (workers s)) eqn:Hf; [|discriminate].
      injection Hs as <-. exact Hf.
    + destruct (raises env _ _); injection Hs as <-; discriminate.
  - destruct (workers s !! i) as [w|] eqn:Hw; [|discriminate].
    destruct (worker_step_rank env s s' i w Hs) as (Hm' & _).
    rewrite Hm' in Hm. specialize (Hj Hm).
    rewrite (finished_no_step env s i w (forallb_finished_lookup _ _ _ Hj Hw)) in Hs.
    discriminate.
Qed.

Lemma joined_all_finished (h0 : history) (resources : list resource)
    (sched : list thread) :
  main (run_pool env sched h0 resources) = Joined ->
  forallb finished (workers (run_pool env sched h0 resources)) = true.
Proof.
  assert (Hj : forall sc s0, (main s0 = Joined -> forallb finished (workers s0) = true) ->
                 main (run env sc s0) = Joined ->
                 forallb finished (workers (run env sc s0)) = true).
  { induction sc as [|t sc IH]; intros s0 H0; simpl; [exact H0|].
    apply IH. destruct (step env t s0) as [s1|] eqn:Hs; simpl; [|exact H0].
    eapply joined_finished_step; eauto. }
  assert (Hd : forall n s0, (main s0 = Joined -> forallb finished (workers s0) = true) ->
                 main (drain env n s0) = Joined ->
                 forallb finished (workers (drain env n s0)) = true).
  { induction n as [|n IH]; intros s0 H0; simpl; [exact H0|].
    destruct (pick s0) as [t|]; [|exact H0].
    destruct (step env t s0) as [s1|] eqn:Hs; [|exact H0].
    apply IH. eapply joined_finished_step; eauto. }
  unfold run_pool. apply Hd, Hj. simpl. discriminate.
Qed.

Lemma flags_kept_step (s s' : pool) (t : thread) :
  step env t s = Some s' ->
  (flag_delete (status s) = true -> flag_delete (status s') = true)
  /\ (flag_power_off (status s) = true -> flag_power_off (status s') = true).
Proof.
  intros Hs. destruct t as [|i]; simpl in Hs.
  - unfold main_step, api in Hs.
    destruct (main s) as [[|r rest]| |]; try discriminate.
    + destruct (forallb finished (workers s)); [|discriminate].
      injection Hs as <-. auto.
    + destruct (raises env _ _); injection Hs as <-; auto.
  - destruct (workers s !! i) as [w|]; [|discriminate].
    step_cases Hs; simpl; auto.
Qed.

(** X4. A worker whose resource has auto_delete and auto_power_off both
    different from "true" logs that auto power off is disabled and returns
    None: it makes no API call and touches neither the flags nor the
    lock. *)
Theorem disabled_worker_only_logs (s : pool) (i : nat) (w : worker) :
  workers s !! i = Some w ->
  at_pc w = Begin ->
  deletes (info w) = false ->
  powers_off (info w) = false ->
  let s' := run env [Worker i; Worker i] s in
  workers s' !! i = Some {| info := info w; at_pc := Done (Return None) |}
  /\ hist s'
     = EvLog Info ("Auto Power Off is disabled for deployed app " ++ Name (info w)
                     ++ " in reservation " ++ reservation_id env)%string :: hist s
  /\ status s' = status s
  /\ lock s' = lock s.
Proof.
  intros Hw Hpc Hd Hp s'. unfold deletes, powers_off in *.
  pose (s1 := say i w Info ("Auto Power Off is disabled for deployed app "
                              ++ Name (info w) ++ " in reservation "
                              ++ reservation_id env)%string ReturnNone s).
  assert (H1 : step env (Worker i) s = Some s1)
    by (unfold step; rewrite Hw; unfold worker_step; rewrite Hpc, Hd, Hp; reflexivity).
  pose proof (moved_lookup _ _ _ ReturnNone Hw : workers s1 !! i = Some _) as Hw1.
  match type of Hw1 with
  | _ = Some ?w1 =>
      assert (H2 : step env (Worker i) s1 = Some (goto i w1 (Done (Return None)) s1))
        by (unfold step; rewrite Hw1; reflexivity)
  end.
  subst s'. rewrite (run_step_taken _ _ _ _ _ H1), (run_step_taken _ _ _ _ _ H2).
  cbn [run]. split; [exact (moved_lookup _ _ _ _ Hw1)|]. repeat split.
Qed.

(** X5. The pool never deadlocks: in every interleaving, as long as the
    main thread has not left the pool some thread can move. *)
Theorem pool_never_deadlocks (h0 : history) (resources : list resource)
    (sched : list thread) :
  let s := run env sched (pool_init h0 resources) in
  left_pool (main s) = false ->
  exists t s', step env t s = Some s'.
Proof.
  intros s Hl.
  pose proof (pool_inv_run env h0 sched _ (pool_inv_init h0 resources)) as Hi.
  fold s in Hi. destruct (main s) as [todo| |] eqn:Hm; try discriminate.
  destruct (pick_progress env h0 s todo Hi Hm) as (t & s' & _ & Hs & _). eauto.
Qed.

(** X6. Mutual exclusion: in every interleaving at most one worker is
    inside a [with lock] block. *)
Theorem one_worker_in_critical_section (h0 : history) (resources : list resource)
    (sched : list thread) (i j : nat) (wi wj : worker) :
  let s := run env sched (pool_init h0 resources) in
  workers s !! i = Some wi ->
  workers s !! j = Some wj ->
  critical (at_pc wi) = true ->
  critical (at_pc wj) = true ->
  i = j.
Proof.
  intros s Hi Hj Hci Hcj.
  destruct (pool_inv_run env h0 sched _ (pool_inv_init h0 resources)) as [[L1 _] _].
  fold s in L1. apply (L1 i wi Hi) in Hci. apply (L1 j wj Hj) in Hcj. congruence.
Qed.

(** X7. When the pool has been joined the lock is free, whatever raised
    inside the critical sections. *)
Theorem lock_free_after_join (h0 : history) (resources : list resource)
    (sched : list thread) :
  let s := run_pool env sched h0 resources in
  main s = Joined -> lock s = None.
Proof.
  intros s Hm.
  pose proof (run_pool_inv env h0 sched resources) as Hi. fold s in Hi.
  apply (finished_lock_free h0 s Hi). apply joined_all_finished. exact Hm.
Qed.

(** X8. The flags are never reset: once a flag is set it stays set along
    every schedule. *)
Theorem flags_never_reset (sched : list thread) (s : pool) :
  (flag_delete (status s) = true -> flag_delete (status (run env sched s)) = true)
  /\ (flag_power_off (status s) = true ->
      flag_power_off (status (run env sched s)) = true).
Proof.
  revert s. induction sched as [|t sched IH]; intros s; simpl; [auto|].
  destruct (step env t s) as [s1|] eqn:Hs; simpl; [|apply IH].
  destruct (flags_kept_step _ _ _ Hs) as [Hd Hp].
  destruct (IH s1) as [IHd IHp]. auto.
Qed.

End MorePool.

Lemma disabled_worker_only_logs_witness :
  let ps := [param "auto_delete" "false"; param "auto_power_off" "no"] in
  let env := sample [] ["vm1"] ps never_fails in
  let s := run env [MainThread] (pool_init [] [{| ResourceName := "vm1" |}]) in
  let s' := run env [Worker 0; Worker 0] s in
  workers s' !! 0 = Some {| info := vm "vm1" ps; at_pc := Done (Return None) |}
  /\ hist s'
     = EvLog Info "Auto Power Off is disabled for deployed app vm1 in reservation r1"
         :: hist s
  /\ status s' = status s
  /\ lock s' = lock s.
Proof.
  exact (disabled_worker_only_logs
           (sample [] ["vm1"] [param "auto_delete" "false"; param "auto_power_off" "no"]
              never_fails)
           (run (sample [] ["vm1"]
                   [param "auto_delete" "false"; param "auto_power_off" "no"] never_fails)
              [MainThread] (pool_init [] [{| ResourceName := "vm1" |}]))
           0
           {| info := vm "vm1" [param "auto_delete" "false"; param "auto_power_off" "no"];
              at_pc := Begin |}
           eq_refl eq_refl eq_refl eq_refl).
Defined.

Lemma pool_never_deadlocks_witness :
  let env := sample [] ["vm1"] [] never_fails in
  exists t s',
    step env t (run env [MainThread; Worker 0; Worker 0; Worker 0]
                  (pool_init [] [{| ResourceName := "vm1" |}])) = Some s'.
Proof.
  exact (pool_never_deadlocks (sample [] ["vm1"] [] never_fails) []
           [{| ResourceName := "vm1" |}] [MainThread; Worker 0; Worker 0; Worker 0]
           eq_refl).
Defined.

Lemma one_worker_in_critical_section_witness : 0 = 0.
Proof.
  exact (one_worker_in_critical_section (sample [] ["vm1"] [] never_fails) []
           [{| ResourceName := "vm1" |}]
           [MainThread; Worker 0; Worker 0; Worker 0; Worker 0] 0 0
           {| info := vm "vm1" []; at_pc := DelSet |}
           {| info := vm "vm1" []; at_pc := DelSet |}
           eq_refl eq_refl eq_refl eq_refl).
Defined.

Lemma lock_free_after_join_witness :
  lock (run_pool (sample [] ["vm1"] [] (message_fails msg_both))
          [MainThread; Worker 0; Worker 0; Worker 0] []
          [{| ResourceName := "vm1" |}]) = None.
Proof.
  exact (lock_free_after_join (sample [] ["vm1"] [] (message_fails msg_both)) []
           [{| ResourceName := "vm1" |}] [MainThread; Worker 0; Worker 0; Worker 0]
           eq_refl).
Defined.

(** ** Further properties of the pool phase: who is deleted, who is
    powered off *)

Section Decisions.

Variable env : Env.
Variable resources : list resource.

Lemma path_ok_mono (m m' : message_status) (w : worker) :
  (flag_delete m = true -> flag_delete m' = true) ->
  (flag_power_off m = true -> flag_power_off m' = true) ->
  path_ok m w -> path_ok m' w.
Proof.
  intros Hd Hp. unfold path_ok.
  destruct (at_pc w) as [| | | | | | | | |r| | | | | | |r| | |e|[[n|]|e]]; intuition.
Qed.

Lemma path_ok_step (s s' : pool) (t : thread) :
  Forall (path_ok (status s)) (workers s) ->
  step env t s = Some s' ->
  Forall (path_ok (status s')) (workers s').
Proof.
  intros Hl Hs. destruct t as [|i]; simpl in Hs.
  - unfold main_step, api in Hs.
    destruct (main s) as [[|r rest]| |]; try discriminate.
    + destruct (forallb finished (workers s)); [|discriminate].
      injection Hs as <-. exact Hl.
    + destruct (raises env _ _); injection Hs as <-; simpl; [exact Hl|].
      destruct (VmDetails _); [|exact Hl].
      apply Forall_app. split; [exact Hl|]. repeat constructor.
  - destruct (workers s !! i) as [w|] eqn:Hw; [|discriminate].
    pose proof (Forall_lookup_1 _ _ _ _ Hl Hw) as Hp. unfold path_ok in Hp.
    step_cases Hs; simpl.
    all: apply Forall_insert;
      [ eapply Forall_impl; [exact Hl|]; intros x; apply path_ok_mono; simpl; auto
      | unfold path_ok, deletes, powers_off in *; simpl ].
    all: repeat match goal with
                | H : negb _ = false |- _ => apply negb_false_iff in H
                end.
    all: intuition congruence.
Qed.

Lemma origin_step (s s' : pool) (t : thread) :
  origin_inv env resources s -> step env t s = Some s' -> origin_inv env resources s'.
Proof.
  intros [Hm Hw] Hs. destruct t as [|i]; simpl in Hs.
  - unfold main_step, api in Hs.
    destruct (main s) as [[|r rest]| |] eqn:Em; try discriminate.
    + destruct (forallb finished (workers s)); [|discriminate].
      injection Hs as <-. split; simpl; [discriminate|exact Hw].
    + destruct (Hm _ eq_refl) as [done Hd].
      destruct (raises env _ _); injection Hs as <-; split; simpl;
        try discriminate; try exact Hw.
      * intros todo [= <-]. exists (done ++ [r]). rewrite <- app_assoc. exact Hd.
      * destruct (VmDetails (resource_details env (ResourceName r))) eqn:Hv;
          [|exact Hw].
        apply Forall_app. split; [exact Hw|]. constructor; [|constructor].
        exists r. simpl. unfold details_of. rewrite Hv.
        split; [rewrite Hd; apply in_or_app; right; left; reflexivity|]. eauto.
  - destruct (workers s !! i) as [w|] eqn:Hwi; [|discriminate].
    pose proof (Forall_lookup_1 _ _ _ _ Hw Hwi) as Ho.
    destruct (worker_step_rank env s s' i w Hs) as (Hm' & p & Hws & _).
    split; [rewrite Hm'; exact Hm|]. rewrite Hws.
    apply Forall_insert; [exact Hw|exact Ho].
Qed.

(** What one step adds to the history. *)
Lemma step_adds (s s' : pool) (t : thread) :
  Forall (path_ok (status s)) (workers s) ->
  origin_inv env resources s ->
  step env t s = Some s' ->
  exists evs, hist s' = evs ++ hist s
              /\ Forall (fun e => pool_event env e = true
                                  /\ power_off_justified env resources e) evs.
Proof.
  intros Hl [_ Ho] Hs. destruct t as [|i]; simpl in Hs.
  - unfold main_step, api in Hs.
    destruct (main s) as [[|r rest]| |]; try discriminate.
    + destruct (forallb finished (workers s)); [|discriminate].
      injection Hs as <-. exists []. split; [reflexivity|constructor].
    + destruct (raises env _ _); injection Hs as <-; simpl;
        eexists [_]; (split; [reflexivity|]); repeat constructor.
  - destruct (workers s !! i) as [w|] eqn:Hw; [|discriminate].
    pose proof (Forall_lookup_1 _ _ _ _ Hl Hw) as Hp. unfold path_ok in Hp.
    pose proof (Forall_lookup_1 _ _ _ _ Ho Hw) as (r & Hr & Hinfo & _).
    step_cases Hs; simpl.
    all: first [ exists []; split; [reflexivity|constructor]
               | eexists [_]; split; [reflexivity|] ].
    all: constructor; [|constructor].
    all: split; simpl; rewrite ?String.eqb_refl; try reflexivity; try exact I.
    all: exists r; rewrite <- Hinfo; intuition.
Qed.

Lemma decisions_run (sched : list thread) (s : pool) :
  Forall (path_ok (status s)) (workers s) ->
  origin_inv env resources s ->
  let s' := run env sched s in
  Forall (path_ok (status s')) (workers s')
  /\ origin_inv env resources s'
  /\ exists evs, hist s' = evs ++ hist s
                 /\ Forall (fun e => pool_event env e = true
                                     /\ power_off_justified env resources e) evs.
Proof.
  revert s. induction sched as [|t sched IH]; intros s Hl Ho; simpl.
  - split; [exact Hl|split; [exact Ho|]]. exists []. split; [reflexivity|constructor].
  - destruct (step env t s) as [s1|] eqn:Hs; simpl; [|apply IH; assumption].
    destruct (step_adds s s1 t Hl Ho Hs) as (e1 & He1 & Hf1).
    destruct (IH s1 (path_ok_step _ _ _ Hl Hs) (origin_step _ _ _ Ho Hs))
      as (Hl' & Ho' & e2 & He2 & Hf2).
    split; [exact Hl'|split; [exact Ho'|]]. exists (e2 ++ e1).
    rewrite He2, He1, app_assoc. split; [reflexivity|]. apply Forall_app. auto.
Qed.

Lemma decisions_drain (fuel : nat) (s : pool) :
  Forall (path_ok (status s)) (workers s) ->
  origin_inv env resources s ->
  let s' := drain env fuel s in
  Forall (path_ok (status s')) (workers s')
  /\ origin_inv env resources s'
  /\ exists evs, hist s' = evs ++ hist s
                 /\ Forall (fun e => pool_event env e = true
                                     /\ power_off_justified env resources e) evs.
Proof.
  revert s. induction fuel as [|fuel IH]; intros s Hl Ho; simpl.
  - split; [exact Hl|split; [exact Ho|]]. exists []. split; [reflexivity|constructor].
  - assert (Hstop : Forall (path_ok (status s)) (workers s)
                    /\ origin_inv env resources s
                    /\ exists evs, hist s = evs ++ hist s
                         /\ Forall (fun e => pool_event env e = true
                                             /\ power_off_justified env resources e) evs).
    { split; [exact Hl|split; [exact Ho|]].
      exists []. split; [reflexivity|constructor]. }
    destruct (pick s) as [t|]; [|exact Hstop].
    destruct (step env t s) as [s1|] eqn:Hs; [|exact Hstop].
    destruct (step_adds s s1 t Hl Ho Hs) as (e1 & He1 & Hf1).
    destruct (IH s1 (path_ok_step _ _ _ Hl Hs) (origin_step _ _ _ Ho Hs))
      as (Hl' & Ho' & e2 & He2 & Hf2).
    split; [exact Hl'|split; [exact Ho'|]]. exists (e2 ++ e1).
    rewrite He2, He1, app_assoc. split; [reflexivity|]. apply Forall_app. auto.
Qed.

Lemma decisions_run_pool (sched : list thread) (h0 : history) :
  let s := run_pool env sched h0 resources in
  Forall (path_ok (status s)) (workers s)
  /\ origin_inv env resources s
  /\ exists evs, hist s = evs ++ h0
                 /\ Forall (fun e => pool_event env e = true
                                     /\ power_off_justified env resources e) evs.
Proof.
  unfold run_pool.
  assert (Hl0 : Forall (path_ok (status (pool_init h0 resources)))
                  (workers (pool_init h0 resources))) by constructor.
  assert (Ho0 : origin_inv env resources (pool_init h0 resources)).
  { split; [|constructor]. intros todo [= <-]. exists []. reflexivity. }
  destruct (decisions_run sched _ Hl0 Ho0) as (Hl & Ho & e1 & He1 & Hf1).
  destruct (decisions_drain (budget (run env sched (pool_init h0 resources))) _ Hl Ho)
    as (Hl' & Ho' & e2 & He2 & Hf2).
  split; [exact Hl'|split; [exact Ho'|]]. exists (e2 ++ e1).
  rewrite He2, He1, app_assoc. split; [reflexivity|]. apply Forall_app. auto.
Qed.

Lemma collect_deletable (m : message_status) (ws : list worker) (acc names : list string)
    (Q : string -> Prop) :
  (forall w, path_ok m w ->
     (exists r, In r resources /\ info w = details_of env r
                /\ is_Some (VmDetails (info w))) ->
     deletes (info w) = true -> Q (Name (info w))) ->
  Forall (path_ok m) ws ->
  Forall (fun w => exists r, In r resources /\ info w = details_of env r
                             /\ is_Some (VmDetails (info w))) ws ->
  Forall Q acc ->
  collect ws acc = Return names ->
  Forall Q names.
Proof.
  intros HQ Hp. revert acc. induction Hp as [|w ws Hw _ IH]; intros acc Ho Ha Hc;
    simpl in Hc.
  - injection Hc as <-. exact Ha.
  - inversion Ho as [|? ? Hwo Hos]; subst.
    pose proof Hw as Hw'. unfold path_ok in Hw'.
    destruct (at_pc w) as [| | | | | | | | | | | | | | | | | | | |[[n|]|e]];
      try (eapply IH; eauto; fail); try discriminate.
    destruct Hw' as (Hd & -> & _).
    eapply IH; [exact Hos| |exact Hc].
    apply Forall_app. split; [exact Ha|]. constructor; [|constructor]. apply HQ; auto.
Qed.

Lemma remove_resources_adds (names : list string) (h : history) :
  exists post,
    snd (remove_resources env names h) = post ++ h
    /\ Forall (fun e => power_off_justified env resources e
                        /\ forall rid ns,
                             e = EvApi (RemoveResourcesFromReservation rid ns) ->
                             ns = names) post.
Proof.
  unfold remove_resources. destruct names as [|n names].
  - exists []. split; [reflexivity|constructor].
  - unfold try_except, api. destruct (raises env h _) as [[code m|m]|]; simpl.
    + destruct (pyval_eqb code REMOVE_DEPLOYED_RESOURCE_ERROR).
      * unfold bind, logger, write_message, api.
        destruct (raises env _ _); simpl; eexists [_; _; _];
          (split; [reflexivity|]); repeat constructor; simpl; auto;
          intros; congruence.
      * eexists [_]. split; [reflexivity|]. repeat constructor; simpl; auto.
        intros; congruence.
    + eexists [_]. split; [reflexivity|]. repeat constructor; simpl; auto.
      intros; congruence.
    + eexists [_]. split; [reflexivity|]. repeat constructor; simpl; auto.
      intros; congruence.
Qed.

End Decisions.

Section Safety.

Variable env : Env.

(** X9. Only resources marked for deletion are removed: every name passed
    to a bulk remove call of the phase is the name of a VM-backed resource
    created in the reservation whose auto_delete is absent or "true" up to
    case, in every interleaving and whatever calls fail. *)
Theorem only_deletable_resources_removed (sched : list thread)
    (rd : reservation_details) (h : history) :
  let resources := get_resources_created_in_res env rd (reservation_id env) in
  exists post,
    snd (_power_off_and_delete_all_vm_resources env sched rd h) = post ++ h
    /\ forall rid names,
         In (EvApi (RemoveResourcesFromReservation rid names)) post ->
         Forall (fun n => exists r, In r resources
                                    /\ n = Name (details_of env r)
                                    /\ is_Some (VmDetails (details_of env r))
                                    /\ deletes (details_of env r) = true) names.
Proof.
  intros resources. unfold _power_off_and_delete_all_vm_resources. fold resources.
  destruct (decisions_run_pool env resources sched h) as (Hp & [_ Ho] & added & Hh & Hf).
  set (s := run_pool env sched h resources) in *.
  assert (Hadded : forall rid names,
            In (EvApi (RemoveResourcesFromReservation rid names)) added -> False).
  { intros rid names Hin. rewrite Forall_forall in Hf.
    apply list_elem_of_In in Hin. destruct (Hf _ Hin) as [Hpe _]. discriminate. }
  assert (Hstop : exists post, hist s = post ++ h
            /\ forall rid names,
                 In (EvApi (RemoveResourcesFromReservation rid names)) post ->
                 Forall (fun n => exists r, In r resources
                                    /\ n = Name (details_of env r)
                                    /\ is_Some (VmDetails (details_of env r))
                                    /\ deletes (details_of env r) = true) names).
  { exists added. split; [exact Hh|]. intros rid names Hin.
    destruct (Hadded _ _ Hin). }
  assert (Hgo : exists post,
            snd (match collect (workers s) [] with
                 | Return names => remove_resources env names (hist s)
                 | Raise e => (Raise e, hist s)
                 end) = post ++ h
            /\ forall rid names,
                 In (EvApi (RemoveResourcesFromReservation rid names)) post ->
                 Forall (fun n => exists r, In r resources
                                    /\ n = Name (details_of env r)
                                    /\ is_Some (VmDetails (details_of env r))
                                    /\ deletes (details_of env r) = true) names).
  { destruct (collect (workers s) []) as [names|e] eqn:Hc; [|exact Hstop].
    destruct (remove_resources_adds env resources names (hist s)) as (post & Hpost & Hfp).
    exists (post ++ added). rewrite Hpost, Hh, app_assoc. split; [reflexivity|].
    intros rid ns Hin. apply in_app_or in Hin as [Hin|Hin]; [|destruct (Hadded _ _ Hin)].
    rewrite Forall_forall in Hfp. apply list_elem_of_In in Hin.
    destruct (Hfp _ Hin) as [_ Hns]. rewrite (Hns _ _ eq_refl).
    eapply (collect_deletable env resources (status s)); [|exact Hp|exact Ho| |exact Hc].
    - intros w _ (r & Hr & Hinfo & Hvm) Hd. exists r. rewrite <- Hinfo. auto.
    - constructor. }
  destruct (main s); [exact Hgo|exact Hgo|exact Hstop].
Qed.

(** X10. Only resources kept and marked for power off are powered off:
    every power-off command of the phase is for a resource created in the
    reservation whose auto_delete is not "true" and whose auto_power_off is
    absent or "true" up to case, in every interleaving and whatever calls
    fail. *)
Theorem only_kept_resources_powered_off (sched : list thread)
    (rd : reservation_details) (h : history) :
  let resources := get_resources_created_in_res env rd (reservation_id env) in
  exists post,
    snd (_power_off_and_delete_all_vm_resources env sched rd h) = post ++ h
    /\ Forall (power_off_justified env resources) post.
Proof.
  intros resources. unfold _power_off_and_delete_all_vm_resources. fold resources.
  destruct (decisions_run_pool env resources sched h) as (_ & _ & added & Hh & Hf).
  set (s := run_pool env sched h resources) in *.
  assert (Hadded : Forall (power_off_justified env resources) added).
  { eapply Forall_impl; [exact Hf|]. intros e [_ H]. exact H. }
  assert (Hstop : exists post, hist s = post ++ h
                    /\ Forall (power_off_justified env resources) post) by eauto.
  assert (Hgo : exists post,
            snd (match collect (workers s) [] with
                 | Return names => remove_resources env names (hist s)
                 | Raise e => (Raise e, hist s)
                 end) = post ++ h
            /\ Forall (power_off_justified env resources) post).
  { destruct (collect (workers s) []) as [names|e]; [|exact Hstop].
    destruct (remove_resources_adds env resources names (hist s)) as (post & Hpost & Hfp).
    exists (post ++ added). rewrite Hpost, Hh, app_assoc. split; [reflexivity|].
    apply Forall_app. split; [|exact Hadded].
    eapply Forall_impl; [exact Hfp|]. intros e [H _]. exact H. }
  destruct (main s); [exact Hgo|exact Hgo|exact Hstop].
Qed.

(** X11. Between its start and the join the pool phase only logs, fetches
    resource details, writes the three status messages and issues PowerOff
    commands, all for this reservation: in particular it never disconnects
    routes, removes resources or cleans up connectivity. *)
Theorem pool_events_only (sched : list thread) (h0 : history)
    (resources : list resource) :
  exists added,
    hist (run_pool env sched h0 resources) = added ++ h0
    /\ Forall (fun e => pool_event env e = true) added.
Proof.
  destruct (decisions_run_pool env resources sched h0) as (_ & _ & added & Hh & Hf).
  exists added. split; [exact Hh|].
  eapply Forall_impl; [exact Hf|]. intros e [H _]. exact H.
Qed.

End Safety.

(** ** Further properties of the pool phase: edge cases *)

Section EdgeCases.

Variable env : Env.

Lemma pool_events_no_remove (added : history) :
  Forall (fun e => pool_event env e = true) added -> count is_remove_call added = 0.
Proof.
  induction 1 as [|e added He _ IH]; simpl; [reflexivity|]. rewrite IH.
  destruct e as [lvl m|[]]; simpl in *; try reflexivity; discriminate.
Qed.

(** X12. The phase makes at most one bulk remove call, in every
    interleaving and whatever calls fail. *)
Theorem at_most_one_bulk_remove (sched : list thread) (rd : reservation_details)
    (h : history) :
  count is_remove_call (snd (_power_off_and_delete_all_vm_resources env sched rd h))
  <= S (count is_remove_call h).
Proof.
  unfold _power_off_and_delete_all_vm_resources.
  set (resources := get_resources_created_in_res env rd (reservation_id env)).
  destruct (decisions_run_pool env resources sched h) as (_ & _ & added & Hh & Hf).
  set (s := run_pool env sched h resources) in *.
  assert (Hs : count is_remove_call (hist s) = count is_remove_call h).
  { rewrite Hh, count_app, pool_events_no_remove; [reflexivity|].
    eapply Forall_impl; [exact Hf|]. intros e [H _]. exact H. }
  assert (Hr : forall names,
            count is_remove_call (snd (remove_resources env names (hist s)))
            <= S (count is_remove_call (hist s))).
  { intros names. unfold remove_resources. destruct names as [|n names]; [simpl; lia|].
    unfold try_except, api. destruct (raises env (hist s) _) as [[code m|m]|]; simpl;
      try lia.
    destruct (pyval_eqb code REMOVE_DEPLOYED_RESOURCE_ERROR); simpl; [|lia].
    unfold bind, logger, write_message, api. destruct (raises env _ _); simpl; lia. }
  assert (Hgo : count is_remove_call
                  (snd (match collect (workers s) [] with
                        | Return names => remove_resources env names (hist s)
                        | Raise e => (Raise e, hist s)
                        end)) <= S (count is_remove_call h)).
  { destruct (collect (workers s) []) as [names|e]; simpl; [|lia].
    rewrite <- Hs. apply Hr. }
  destruct (main s); [exact Hgo|exact Hgo|simpl; lia].
Qed.

Variable resources : list resource.

Section NoVm.

Hypothesis fetch_ok : forall h n, raises env h (GetResourceDetails n) = None.
Hypothesis none_vm_backed :
  Forall (fun r => VmDetails (details_of env r) = None) resources.

Lemma no_vm_step (h0 : history) (s s' : pool) (t : thread) :
  (workers s = []
   /\ exists done todo, resources = done ++ todo /\ remaining (main s) = Some todo
                        /\ hist s = rev (map fetch_event done) ++ h0) ->
  step env t s = Some s' ->
  workers s' = []
  /\ exists done todo, resources = done ++ todo /\ remaining (main s') = Some todo
                       /\ hist s' = rev (map fetch_event done) ++ h0.
Proof.
  intros (Hw & done & todo & Hres & Hm & Hh) Hs. destruct t as [|i]; simpl in Hs.
  - unfold main_step, api in Hs.
    destruct (main s) as [[|r rest]| |]; try discriminate; simpl in Hm.
    + destruct (forallb finished (workers s)); [|discriminate].
      injection Hs as <-. injection Hm as <-. simpl. split; [exact Hw|].
      exists done, []. auto.
    + rewrite fetch_ok in Hs. injection Hs as <-. injection Hm as <-. simpl.
      assert (Hv : VmDetails (resource_details env (ResourceName r)) = None).
      { rewrite Hres in none_vm_backed. apply Forall_app in none_vm_backed as [_ Hf].
        inversion Hf; auto. }
      rewrite Hv. split; [exact Hw|]. exists (done ++ [r]), rest.
      rewrite <- app_assoc. split; [exact Hres|]. split; [reflexivity|].
      rewrite map_app, rev_app_distr, Hh. reflexivity.
  - rewrite Hw in Hs. discriminate.
Qed.

(** X13. When no resource created in the reservation is VM-backed (in
    particular when there is none), the phase only fetches the details of
    each resource, in order, and returns: no worker is started, no status
    message is written and no bulk remove call is made. *)
Theorem non_vm_resources_only_fetched (sched : list thread) (rd : reservation_details)
    (h : history) :
  get_resources_created_in_res env rd (reservation_id env) = resources ->
  _power_off_and_delete_all_vm_resources env sched rd h
  = (Return tt, rev (map fetch_event resources) ++ h).
Proof.
  intros Hres. unfold _power_off_and_delete_all_vm_resources. rewrite Hres.
  set (s := run_pool env sched h resources).
  assert (Hinit : workers (pool_init h resources) = []
                  /\ exists done todo, resources = done ++ todo
                       /\ remaining (main (pool_init h resources)) = Some todo
                       /\ hist (pool_init h resources) = rev (map fetch_event done) ++ h).
  { split; [reflexivity|]. exists [], resources. auto. }
  assert (Hrun : forall sc s0,
            (workers s0 = []
             /\ exists done todo, resources = done ++ todo
                  /\ remaining (main s0) = Some todo
                  /\ hist s0 = rev (map fetch_event done) ++ h) ->
            workers (run env sc s0) = []
            /\ exists done todo, resources = done ++ todo
                 /\ remaining (main (run env sc s0)) = Some todo
                 /\ hist (run env sc s0) = rev (map fetch_event done) ++ h).
  { induction sc as [|t sc IH]; intros s0 H0; simpl; [exact H0|].
    apply IH. destruct (step env t s0) as [s1|] eqn:Hs; simpl; [|exact H0].
    eapply no_vm_step; eauto. }
  assert (Hdrain : forall n s0,
            (workers s0 = []
             /\ exists done todo, resources = done ++ todo
                  /\ remaining (main s0) = Some todo
                  /\ hist s0 = rev (map fetch_event done) ++ h) ->
            workers (drain env n s0) = []
            /\ exists done todo, resources = done ++ todo
                 /\ remaining (main (drain env n s0)) = Some todo
                 /\ hist (drain env n s0) = rev (map fetch_event done) ++ h).
  { induction n as [|n IH]; intros s0 H0; simpl; [exact H0|].
    destruct (pick s0) as [t|]; [|exact H0].
    destruct (step env t s0) as [s1|] eqn:Hs; [|exact H0].
    apply IH. eapply no_vm_step; eauto. }
  destruct (Hdrain (budget (run env sched (pool_init h resources))) _
              (Hrun sched _ Hinit)) as (Hw & done & todo & Hd & Hm & Hh).
  fold (run_pool env sched h resources) in Hw, Hm, Hh. fold s in Hw, Hm, Hh.
  pose proof (run_pool_leaves_pool env h sched resources) as Hl. fold s in Hl.
  destruct (main s); simpl in *; try discriminate.
  injection Hm as <-. rewrite app_nil_r in Hd. subst done.
  rewrite Hw. simpl. unfold ret. rewrite Hh. reflexivity.
Qed.

End NoVm.

Section FetchFails.

Variable before after : list resource.
Variable failing : resource.
Variable e : exn.

Hypothesis resources_split : resources = before ++ failing :: after.
Hypothesis before_ok :
  forall h r, In r before -> raises env h (GetResourceDetails (ResourceName r)) = None.
Hypothesis fetch_raises :
  forall h, raises env h (GetResourceDetails (ResourceName failing)) = Some e.

Lemma fetch_fails_step (s s' : pool) (t : thread) :
  ((exists d1 d2, before = d1 ++ d2 /\ main s = Submitting (d2 ++ failing :: after))
   \/ main s = Failed e) ->
  step env t s = Some s' ->
  (exists d1 d2, before = d1 ++ d2 /\ main s' = Submitting (d2 ++ failing :: after))
  \/ main s' = Failed e.
Proof.
  intros Hi Hs. destruct t as [|i]; simpl in Hs.
  - unfold main_step, api in Hs. destruct Hi as [(d1 & d2 & Hb & Hm)|Hm]; rewrite Hm in Hs;
      [|discriminate].
    destruct d2 as [|r d2]; simpl in Hs.
    + rewrite fetch_raises in Hs. injection Hs as <-. right. reflexivity.
    + rewrite before_ok in Hs
        by (rewrite Hb; apply in_or_app; right; left; reflexivity).
      injection Hs as <-. left. exists (d1 ++ [r]), d2. simpl.
      rewrite <- app_assoc. auto.
  - destruct (workers s !! i) as [w|]; [|discriminate].
    destruct (worker_step_rank env s s' i w Hs) as [-> _]. exact Hi.
Qed.

(** X14. When fetching the details of one of the resources raises, the
    exception leaves the phase, in every interleaving of the workers
    already started, and no bulk remove call is made. *)
Theorem fetch_failure_aborts_phase (sched : list thread) (rd : reservation_details)
    (h : history) :
  get_resources_created_in_res env rd (reservation_id env) = resources ->
  fst (_power_off_and_delete_all_vm_resources env sched rd h) = Raise e
  /\ count is_remove_call (snd (_power_off_and_delete_all_vm_resources env sched rd h))
     = count is_remove_call h.
Proof.
  intros Hres. unfold _power_off_and_delete_all_vm_resources. rewrite Hres.
  set (s := run_pool env sched h resources).
  assert (Hinit : (exists d1 d2, before = d1 ++ d2
                     /\ main (pool_init h resources) = Submitting (d2 ++ failing :: after))
                  \/ main (pool_init h resources) = Failed e).
  { left. exists [], before. simpl. rewrite resources_split. auto. }
  assert (Hrun : forall sc s0,
            ((exists d1 d2, before = d1 ++ d2
                /\ main s0 = Submitting (d2 ++ failing :: after))
             \/ main s0 = Failed e) ->
            (exists d1 d2, before = d1 ++ d2
               /\ main (run env sc s0) = Submitting (d2 ++ failing :: after))
            \/ main (run env sc s0) = Failed e).
  { induction sc as [|t sc IH]; intros s0 H0; simpl; [exact H0|].
    apply IH. destruct (step env t s0) as [s1|] eqn:Hs; simpl; [|exact H0].
    eapply fetch_fails_step; eauto. }
  assert (Hdrain : forall n s0,
            ((exists d1 d2, before = d1 ++ d2
                /\ main s0 = Submitting (d2 ++ failing :: after))
             \/ main s0 = Failed e) ->
            (exists d1 d2, before = d1 ++ d2
               /\ main (drain env n s0) = Submitting (d2 ++ failing :: after))
            \/ main (drain env n s0) = Failed e).
  { induction n as [|n IH]; intros s0 H0; simpl; [exact H0|].
    destruct (pick s0) as [t|]; [|exact H0].
    destruct (step env t s0) as [s1|] eqn:Hs; [|exact H0].
    apply IH. eapply fetch_fails_step; eauto. }
  pose proof (Hdrain (budget (run env sched (pool_init h resources))) _
                (Hrun sched _ Hinit)) as Hm.
  fold (run_pool env sched h resources) in Hm. fold s in Hm.
  pose proof (run_pool_leaves_pool env h sched resources) as Hl. fold s in Hl.
  destruct Hm as [(d1 & d2 & _ & Hm)|Hm]; rewrite Hm in *; [discriminate|].
  split; [reflexivity|]. simpl.
  destruct (decisions_run_pool env resources sched h) as (_ & _ & added & Hh & Hf).
  fold s in Hh. rewrite Hh, count_app, pool_events_no_remove; [reflexivity|].
  eapply Forall_impl; [exact Hf|]. intros x [H _]. exact H.
Qed.

End FetchFails.

End EdgeCases.

Lemma non_vm_resources_only_fetched_witness :
  let env := sample_plain ["sw1"; "sw2"] in
  _power_off_and_delete_all_vm_resources env [Worker 0; MainThread] (reservation env) []
  = (Return tt, [EvApi (GetResourceDetails "sw2"); EvApi (GetResourceDetails "sw1")]).
Proof.
  apply (non_vm_resources_only_fetched (sample_plain ["sw1"; "sw2"])
           [{| ResourceName := "sw1" |}; {| ResourceName := "sw2" |}]).
  - reflexivity.
  - repeat constructor.
  - reflexivity.
Defined.

Lemma fetch_failure_aborts_phase_witness :
  let env := sample [] ["vm1"; "vm2"] [] (fetch_fails "vm2") in
  fst (_power_off_and_delete_all_vm_resources env [MainThread; Worker 0]
         (reservation env) [])
  = Raise (Exception "no such resource")
  /\ count is_remove_call
       (snd (_power_off_and_delete_all_vm_resources env [MainThread; Worker 0]
               (reservation env) [])) = count is_remove_call [].
Proof.
  apply (fetch_failure_aborts_phase (sample [] ["vm1"; "vm2"] [] (fetch_fails "vm2"))
           [{| ResourceName := "vm1" |}; {| ResourceName := "vm2" |}]
           [{| ResourceName := "vm1" |}] [] {| ResourceName := "vm2" |}
           (Exception "no such resource")).
  - reflexivity.
  - intros h r [<-|[]]. reflexivity.
  - reflexivity.
  - reflexivity.
Defined.

(** ** Further properties of the pool phase: how often *)

Section HowOften.

Variable env : Env.
Variable resources : list resource.
Variable h0 : history.

Lemma power_bound_step (P : string -> bool) (s s' : pool) (t : thread) :
  (exists done rest,
     resources = done ++ rest
     /\ (forall todo, main s = Submitting todo -> todo = rest)
     /\ count (is_power_off_for P) (hist s)
        <= count (is_power_off_for P) h0
           + sum_list_with
               (fun w => Nat.b2n (P (Name (info w)) && commanded (at_pc w)))
               (workers s)
     /\ sum_list_with (fun w => Nat.b2n (P (Name (info w)))) (workers s)
        <= sum_list_with (fun r => Nat.b2n (P (Name (details_of env r)))) done) ->
  step env t s = Some s' ->
  exists done rest,
    resources = done ++ rest
    /\ (forall todo, main s' = Submitting todo -> todo = rest)
    /\ count (is_power_off_for P) (hist s')
       <= count (is_power_off_for P) h0
          + sum_list_with
              (fun w => Nat.b2n (P (Name (info w)) && commanded (at_pc w)))
              (workers s')
    /\ sum_list_with (fun w => Nat.b2n (P (Name (info w)))) (workers s')
       <= sum_list_with (fun r => Nat.b2n (P (Name (details_of env r)))) done.
Proof.
  intros (done & rest & Hres & Hm & Hc & Hb) Hs. destruct t as [|i]; simpl in Hs.
  - unfold main_step, api in Hs.
    destruct (main s) as [[|r todo]| |] eqn:Em; try discriminate.
    + destruct (forallb finished (workers s)); [|discriminate].
      injection Hs as <-. exists done, rest. simpl. repeat split; auto. discriminate.
    + pose proof (Hm _ eq_refl) as Hr. subst rest.
      destruct (raises env _ _); injection Hs as <-; simpl.
      * exists done, (r :: todo). repeat split; auto. discriminate.
      * exists (done ++ [r]), todo. rewrite <- app_assoc. split; [exact Hres|].
        split; [intros ? [= <-]; reflexivity|].
        rewrite sum_list_with_app. simpl. unfold details_of in *.
        destruct (VmDetails (resource_details env (ResourceName r)));
          [rewrite !sum_list_with_app; simpl; rewrite andb_false_r; simpl|];
          split; lia.
  - destruct (workers s !! i) as [w|] eqn:Hw; [|discriminate].
    pose proof (fun p =>
                  sum_list_moved
                    (fun w => Nat.b2n (P (Name (info w)) && commanded (at_pc w)))
                    (workers s) i w {| info := info w; at_pc := p |} Hw) as Hsum.
    pose proof (fun p =>
                  sum_list_moved (fun w => Nat.b2n (P (Name (info w))))
                    (workers s) i w {| info := info w; at_pc := p |} Hw) as Hsum'.
    exists done, rest. split; [exact Hres|].
    step_cases Hs; simpl.
    all: match goal with
         | |- context [<[_ := {| info := _; at_pc := ?p |}]> _] =>
             specialize (Hsum p); specialize (Hsum' p)
         end.
    all: match goal with
         | H : at_pc _ = _ |- _ => simpl in Hsum, Hsum'; rewrite H in Hsum
         end.
    all: split; [exact Hm|].
    all: match type of Hsum with
         | context [Nat.b2n (?b && _)] => destruct b
         end; simpl in *; split; lia.
Qed.

Lemma commanded_le (P : string -> bool) (ws : list worker) :
  sum_list_with (fun w => Nat.b2n (P (Name (info w)) && commanded (at_pc w))) ws
  <= sum_list_with (fun w => Nat.b2n (P (Name (info w)))) ws.
Proof.
  induction ws as [|w ws IH]; simpl; [lia|].
  destruct (P (Name (info w))), (commanded (at_pc w)); simpl; lia.
Qed.

Lemma power_bound_run_pool (P : string -> bool) (sched : list thread) :
  count (is_power_off_for P) (hist (run_pool env sched h0 resources))
  <= count (is_power_off_for P) h0
     + sum_list_with (fun r => Nat.b2n (P (Name (details_of env r)))) resources.
Proof.
  set (I := fun s : pool =>
         exists done rest,
           resources = done ++ rest
           /\ (forall todo, main s = Submitting todo -> todo = rest)
           /\ count (is_power_off_for P) (hist s)
              <= count (is_power_off_for P) h0
                 + sum_list_with
                     (fun w => Nat.b2n (P (Name (info w)) && commanded (at_pc w)))
                     (workers s)
           /\ sum_list_with (fun w => Nat.b2n (P (Name (info w)))) (workers s)
              <= sum_list_with (fun r => Nat.b2n (P (Name (details_of env r)))) done).
  assert (Hrun : forall sc s0, I s0 -> I (run env sc s0)).
  { induction sc as [|t sc IH]; intros s0 H0; simpl; [exact H0|].
    apply IH. destruct (step env t s0) as [s1|] eqn:Hs; simpl; [|exact H0].
    eapply power_bound_step; eauto. }
  assert (Hdrain : forall n s0, I s0 -> I (drain env n s0)).
  { induction n as [|n IH]; intros s0 H0; simpl; [exact H0|].
    destruct (pick s0) as [t|]; [|exact H0].
    destruct (step env t s0) as [s1|] eqn:Hs; [|exact H0].
    apply IH. eapply power_bound_step; eauto. }
  assert (Hinit : I (pool_init h0 resources)).
  { exists [], resources. simpl. repeat split; auto; try lia. intros ? [= <-]. reflexivity. }
  destruct (Hdrain (budget (run env sched (pool_init h0 resources))) _
              (Hrun sched _ Hinit)) as (done & rest & Hres & _ & Hc & Hb).
  fold (run_pool env sched h0 resources) in Hc, Hb.
  pose proof (commanded_le P (workers (run_pool env sched h0 resources))) as Hle.
  assert (Hsplit : sum_list_with (fun r => Nat.b2n (P (Name (details_of env r)))) resources
                   = sum_list_with (fun r => Nat.b2n (P (Name (details_of env r)))) done
                     + sum_list_with (fun r => Nat.b2n (P (Name (details_of env r)))) rest)
    by (rewrite Hres; apply sum_list_with_app).
  lia.
Qed.

End HowOften.

Section HowOftenPhase.

Variable env : Env.

(** X15. No resource is powered off twice: for every set of names, the
    power-off commands the phase issues for resources named in the set are
    at most as many as the resources created in the reservation that are
    named in it, in every interleaving and whatever calls fail. *)
Theorem at_most_one_power_off_per_resource (P : string -> bool) (sched : list thread)
    (rd : reservation_details) (h : history) :
  count (is_power_off_for P)
    (snd (_power_off_and_delete_all_vm_resources env sched rd h))
  <= count (is_power_off_for P) h
     + sum_list_with (fun r => Nat.b2n (P (Name (details_of env r))))
         (get_resources_created_in_res env rd (reservation_id env)).
Proof.
  unfold _power_off_and_delete_all_vm_resources.
  set (resources := get_resources_created_in_res env rd (reservation_id env)).
  pose proof (power_bound_run_pool env resources h P sched) as Hb.
  set (s := run_pool env sched h resources) in *.
  assert (Hr : forall names,
            count (is_power_off_for P) (snd (remove_resources env names (hist s)))
            = count (is_power_off_for P) (hist s)).
  { intros names. unfold remove_resources. destruct names as [|n names]; [reflexivity|].
    unfold try_except, api. destruct (raises env (hist s) _) as [[code m|m]|]; simpl;
      try reflexivity.
    destruct (pyval_eqb code REMOVE_DEPLOYED_RESOURCE_ERROR); simpl; [|reflexivity].
    unfold bind, logger, write_message, api. destruct (raises env _ _); reflexivity. }
  assert (Hgo : count (is_power_off_for P)
                  (snd (match collect (workers s) [] with
                        | Return names => remove_resources env names (hist s)
                        | Raise e => (Raise e, hist s)
                        end))
                <= count (is_power_off_for P) h
                   + sum_list_with (fun r => Nat.b2n (P (Name (details_of env r))))
                       resources).
  { destruct (collect (workers s) []) as [names|e]; [rewrite Hr|]; exact Hb. }
  destruct (main s); [exact Hgo|exact Hgo|exact Hb].
Qed.

End HowOftenPhase.

(** ** Further properties of the pool phase: the announcement is made
    exactly when it is due *)

Section Announcement.

Variable env : Env.
Variable resources : list resource.

Lemma existsb_info_lookup (ws : list worker) (i : nat) (w : worker) :
  ws !! i = Some w -> announces (info w) = true ->
  existsb announces (map info ws) = true.
Proof.
  intros Hw Ha. apply existsb_exists. exists (info w). split; [|exact Ha].
  apply in_map. apply list_elem_of_In. eapply list_elem_of_lookup_2; eauto.
Qed.

Lemma submitted_infos_snoc (done : list resource) (r : resource) :
  submitted_infos env (done ++ [r])
  = submitted_infos env done
    ++ match VmDetails (resource_details env (ResourceName r)) with
       | Some _ => [resource_details env (ResourceName r)]
       | None => []
       end.
Proof.
  unfold submitted_infos, details_of. rewrite flat_map_app. simpl.
  rewrite app_nil_r. reflexivity.
Qed.

(** A flag is set only by the worker of a resource that announces. *)
Lemma flag_set_step (s s' : pool) (i : nat) (w : worker) :
  path_ok (status s) w ->
  worker_step env i w s = Some s' ->
  (flag_power_off (status s') = true \/ flag_delete (status s') = true) ->
  (flag_power_off (status s) = true \/ flag_delete (status s) = true)
  \/ announces (info w) = true.
Proof.
  intros Hp Hs. unfold path_ok in Hp. unfold announces.
  step_cases Hs; simpl; auto.
  all: intros _; right.
  all: repeat match goal with
              | H : _ /\ _ |- _ => destruct H
              end.
  all: match goal with
       | H : deletes _ = true |- _ => rewrite H; reflexivity
       | H : powers_off _ = true |- _ => rewrite H; apply orb_true_r
       end.
Qed.

Lemma announce_step (s s' : pool) (t : thread) :
  Forall (path_ok (status s)) (workers s) ->
  ((forall todo, remaining (main s) = Some todo ->
      exists done, resources = done ++ todo
                   /\ map info (workers s) = submitted_infos env done)
   /\ ((flag_power_off (status s) = true \/ flag_delete (status s) = true) ->
       existsb announces (map info (workers s)) = true)) ->
  step env t s = Some s' ->
  (forall todo, remaining (main s') = Some todo ->
     exists done, resources = done ++ todo
                  /\ map info (workers s') = submitted_infos env done)
  /\ ((flag_power_off (status s') = true \/ flag_delete (status s') = true) ->
      existsb announces (map info (workers s')) = true).
Proof.
  intros Hl [Hm Hf] Hs. destruct t as [|i]; simpl in Hs.
  - unfold main_step, api in Hs.
    destruct (main s) as [[|r rest]| |] eqn:Em; try discriminate.
    + destruct (forallb finished (workers s)); [|discriminate].
      injection Hs as <-. simpl. split; [|exact Hf].
      intros todo [= <-]. apply Hm. reflexivity.
    + destruct (Hm _ eq_refl) as (done & Hres & Hinfo).
      destruct (raises env _ _); injection Hs as <-; simpl.
      * split; [discriminate|exact Hf].
      * split.
        -- intros todo [= <-]. exists (done ++ [r]). rewrite <- app_assoc.
           split; [exact Hres|]. rewrite submitted_infos_snoc.
           destruct (VmDetails (resource_details env (ResourceName r)));
             [rewrite map_app|rewrite app_nil_r]; rewrite Hinfo; reflexivity.
        -- intros H. specialize (Hf H).
           destruct (VmDetails (resource_details env (ResourceName r)));
             [|exact Hf].
           rewrite map_app, existsb_app, Hf. reflexivity.
  - destruct (workers s !! i) as [w|] eqn:Hw; [|discriminate].
    pose proof (Forall_lookup_1 _ _ _ _ Hl Hw) as Hp.
    pose proof (flag_set_step s s' i w Hp Hs) as Hflag.
    destruct (worker_step_rank env s s' i w Hs) as (Hm' & p & Hws & _).
    rewrite Hm', Hws, map_info_moved by exact Hw. split; [exact Hm|].
    intros H. destruct (Hflag H) as [H'|Ha]; [exact (Hf H')|].
    eapply existsb_info_lookup; eauto.
Qed.

Lemma announce_run_pool (sched : list thread) (h0 : history) :
  let s := run_pool env sched h0 resources in
  Forall (path_ok (status s)) (workers s)
  /\ (forall todo, remaining (main s) = Some todo ->
        exists done, resources = done ++ todo
                     /\ map info (workers s) = submitted_infos env done)
  /\ ((flag_power_off (status s) = true \/ flag_delete (status s) = true) ->
      existsb announces (map info (workers s)) = true).
Proof.
  set (I := fun s : pool =>
         Forall (path_ok (status s)) (workers s)
         /\ (forall todo, remaining (main s) = Some todo ->
               exists done, resources = done ++ todo
                            /\ map info (workers s) = submitted_infos env done)
         /\ ((flag_power_off (status s) = true \/ flag_delete (status s) = true) ->
             existsb announces (map info (workers s)) = true)).
  assert (Hstep : forall s0 s1 t, I s0 -> step env t s0 = Some s1 -> I s1).
  { intros s0 s1 t (Hl & Ha) Hs. split; [eapply path_ok_step; eauto|].
    eapply announce_step; eauto. }
  assert (Hrun : forall sc s0, I s0 -> I (run env sc s0)).
  { induction sc as [|t sc IH]; intros s0 H0; simpl; [exact H0|].
    apply IH. destruct (step env t s0) as [s1|] eqn:Hs; simpl; [|exact H0].
    eapply Hstep; eauto. }
  assert (Hdrain : forall n s0, I s0 -> I (drain env n s0)).
  { induction n as [|n IH]; intros s0 H0; simpl; [exact H0|].
    destruct (pick s0) as [t|]; [|exact H0].
    destruct (step env t s0) as [s1|] eqn:Hs; [|exact H0].
    apply IH. eapply Hstep; eauto. }
  assert (Hinit : I (pool_init h0 resources)).
  { split; [constructor|]. split; simpl.
    - intros todo [= <-]. exists []. auto.
    - intros [H|H]; discriminate. }
  exact (Hdrain (budget (run env sched (pool_init h0 resources))) _ (Hrun sched _ Hinit)).
Qed.

(** A finished worker of a resource that announces has seen the flag of
    its branch set. *)
Lemma finished_announcer (m : message_status) (w : worker) :
  path_ok m w -> finished w = true -> announces (info w) = true ->
  (flag_delete m = true -> flag_power_off m = true) ->
  flag_power_off m = true.
Proof.
  unfold path_ok, finished, announces. intros Hp Hf Ha Hdp.
  destruct (at_pc w) as [| | | | | | | | | | | | | | | | | | | |[[n|]|e]];
    try discriminate; try contradiction.
  - apply Hdp, Hp.
  - destruct Hp as [Hd Hq]. destruct (deletes (info w)); [auto|].
    simpl in Ha. auto.
Qed.

(** X16. Once the pool has been joined, it has written exactly one
    power-off-class message if some VM-backed resource created in the
    reservation is to be deleted or to be powered off, and none otherwise,
    in every interleaving and even when that write raised. *)
Theorem power_off_class_message_when_due (sched : list thread) (h0 : history) :
  let s := run_pool env sched h0 resources in
  main s = Joined ->
  exists added,
    hist s = added ++ h0
    /\ count power_off_class added
       = Nat.b2n (existsb announces (submitted_infos env resources)).
Proof.
  intros s Hj.
  destruct (announce_run_pool sched h0) as (Hl & Hm & Hf). fold s in Hl, Hm, Hf.
  pose proof (joined_all_finished env h0 resources sched Hj) as Hfin. fold s in Hfin.
  pose proof (run_pool_inv env h0 sched resources) as Hi. fold s in Hi.
  pose proof (finished_lock_free h0 s Hi Hfin) as Hlock.
  destruct Hi as [_ (added & Hh & Hc & _)].
  unfold holder_pc in Hc. rewrite Hlock in Hc. destruct Hc as (Hnp & _ & Hdp).
  exists added. split; [exact Hh|]. rewrite Hnp.
  destruct (Hm [] ltac:(rewrite Hj; reflexivity)) as (done & Hres & Hinfo).
  rewrite app_nil_r in Hres. subst done. rewrite <- Hinfo.
  destruct (existsb announces (map info (workers s))) eqn:He.
  - apply existsb_exists in He as (ri & Hin & Ha).
    apply in_map_iff in Hin as (w & <- & Hw).
    assert (Hfw : finished w = true) by (rewrite forallb_forall in Hfin; auto).
    apply list_elem_of_In in Hw. rewrite Forall_forall in Hl.
    rewrite (finished_announcer _ w (Hl _ Hw) Hfw Ha Hdp). reflexivity.
  - destruct (flag_power_off (status s)) eqn:Hp; [|reflexivity].
    discriminate (Hf (or_introl eq_refl)).
Qed.

End Announcement.

Lemma power_off_class_message_when_due_witness :
  let env := sample [] ["vm1"; "vm2"] [param "auto_delete" "false"]
               (message_fails msg_powering_off) in
  exists added,
    hist (run_pool env [MainThread; Worker 0; MainThread; Worker 1; Worker 0] []
            [{| ResourceName := "vm1" |}; {| ResourceName := "vm2" |}])
    = added ++ []
    /\ count power_off_class added = 1.
Proof.
  exact (power_off_class_message_when_due
           (sample [] ["vm1"; "vm2"] [param "auto_delete" "false"]
              (message_fails msg_powering_off))
           [{| ResourceName := "vm1" |}; {| ResourceName := "vm2" |}]
           [MainThread; Worker 0; MainThread; Worker 1; Worker 0] []
           eq_refl).
Defined.
